(** * bmsf-mesos-adapter/pkg/cache: the keyed [Cache] and the [Reflector]

    A shallow embedding of [reflector.go] and of the [Cache] store that sits
    next to it in package [cache].  Go maps are stdpp finite maps, Go
    [(value, error)] results are sums, method receivers are passed and
    returned explicitly, and the mutex of [Cache] is not represented: every
    method body runs under the lock, so each call is one atomic state
    transformer.  The calls to the logger [blog] have no effect on the store
    or on the observers and are not represented. *)

From stdpp Require Import gmap strings list fin_maps.

(** Go [error] values, identified by their message. *)
Definition GoError : Type := string.

(** ** Package [watch] *)

Module watch.

(** Modelled from the spec: the event kinds of package
    [bk-bcs/bcs-common/pkg/watch], whose declaration is not part of this
    package; section 6 lists them as Added, Updated, Deleted, Synced and
    Error. *)
Inductive EventType : Set :=
| EventSync
| EventAdded
| EventUpdated
| EventDeleted
| EventErr.

(** Modelled from the spec: [watch.Event], a kind and a payload object. *)
Record Event (Obj : Type) : Type := mkEvent {
  Type_ : EventType;
  Data : Obj
}.

Arguments mkEvent {Obj} _ _.
Arguments Type_ {Obj} _.
Arguments Data {Obj} _.

End watch.

(** ** The keyed store *)

Section KeyedStore.

Context {Obj : Type}.

(** Modelled from the spec: the two error values of the store,
    [KeyError{obj, err}] (key derivation failed) and [DataNoExist{obj}]
    (deletion of an absent key); their declarations live in another file of
    the package. *)
Inductive StoreError : Type :=
| KeyError (obj : Obj) (err : GoError)
| DataNoExist (obj : Obj).

(** Modelled from the spec: [ObjectKeyFunc], the caller-supplied keying
    function [func(obj) (string, error)]. *)
Definition ObjectKeyFunc : Type := Obj → GoError + string.

(** The three shapes of the triple [(item, exists, err)] that [Get]
    returns: [(nil, false, err)], [(item, true, nil)] and
    [(nil, false, nil)]. *)
Inductive GetResult : Type :=
| GetErr (err : StoreError)
| Found (item : Obj)
| Missing.

(** [type Cache struct { lock; dataMap; keyFunc }] *)
Record Cache : Type := mkCache {
  dataMap : gmap string Obj;
  keyFunc : ObjectKeyFunc
}.

Definition NewCache (kfunc : ObjectKeyFunc) : Cache := mkCache ∅ kfunc.

Definition CreateCache (kfunc : ObjectKeyFunc) : Cache := mkCache ∅ kfunc.

(** [c.dataMap[key] = obj] *)
Definition setEntry (c : Cache) (key : string) (obj : Obj) : Cache :=
  mkCache (<[key := obj]> (dataMap c)) (keyFunc c).

Definition Cache_Add (c : Cache) (obj : Obj) : Cache * option StoreError :=
  match keyFunc c obj with
  | inl err => (c, Some (KeyError obj err))
  | inr key => (setEntry c key obj, None)
  end.

Definition Cache_Update (c : Cache) (obj : Obj) : Cache * option StoreError :=
  match keyFunc c obj with
  | inl err => (c, Some (KeyError obj err))
  | inr key => (setEntry c key obj, None)
  end.

Definition Cache_Delete (c : Cache) (obj : Obj) : Cache * option StoreError :=
  match keyFunc c obj with
  | inl err => (c, Some (KeyError obj err))
  | inr key =>
      match dataMap c !! key with
      | Some _ => (mkCache (delete key (dataMap c)) (keyFunc c), None)
      | None => (c, Some (DataNoExist obj))
      end
  end.

Definition Cache_Get (c : Cache) (obj : Obj) : GetResult :=
  match keyFunc c obj with
  | inl err => GetErr (KeyError obj err)
  | inr key =>
      match dataMap c !! key with
      | Some item => Found item
      | None => Missing
      end
  end.

(** Go leaves the iteration order of a map unspecified; the model lists
    the entries in the order of [map_to_list], and the results below only
    use facts that hold for every order. *)
Definition Cache_List (c : Cache) : list Obj := (map_to_list (dataMap c)).*2.

Definition Cache_ListKeys (c : Cache) : list string :=
  (map_to_list (dataMap c)).*1.

Definition Cache_GetByKey (c : Cache) (key : string) : option Obj :=
  dataMap c !! key.

Definition Cache_Num (c : Cache) : nat := size (dataMap c).

(** [for key := range c.dataMap { delete(c.dataMap, key) }] *)
Definition Cache_Clear (c : Cache) : Cache :=
  mkCache (foldl (λ m key, delete key m) (dataMap c) (Cache_ListKeys c))
          (keyFunc c).

(** The loop shared by [Replace] and [Reset]: insert item after item, and
    return at the first item whose key cannot be derived. *)
Fixpoint insertAll (c : Cache) (list : list Obj) : Cache * option StoreError :=
  match list with
  | [] => (c, None)
  | item :: rest =>
      match keyFunc c item with
      | inl err => (c, Some (KeyError item err))
      | inr key => insertAll (setEntry c key item) rest
      end
  end.

Definition Cache_Replace (c : Cache) (list : list Obj)
  : Cache * option StoreError :=
  insertAll c list.

Definition Cache_Reset (c : Cache) (list : list Obj)
  : Cache * option StoreError :=
  insertAll (mkCache ∅ (keyFunc c)) list.

End KeyedStore.

Arguments StoreError : clear implicits.
Arguments GetResult : clear implicits.
Arguments Cache : clear implicits.
Arguments ObjectKeyFunc : clear implicits.

(** ** The interfaces the reflector talks to *)

(** Modelled from the spec: the part of the [Store] interface that the
    reflector calls ([Add], [Update], [Delete], [Get]); the interface is
    declared in another file of the package.  [S] is the state of the
    store object behind the interface. *)
Class Store (Obj S : Type) : Type := {
  Add : S → Obj → S * option (StoreError Obj);
  Update : S → Obj → S * option (StoreError Obj);
  Delete : S → Obj → S * option (StoreError Obj);
  Get : S → Obj → GetResult Obj
}.

(** [Cache] implements [Store]. *)
#[export] Instance Cache_Store {Obj : Type} : Store Obj (Cache Obj) := {|
  Add := Cache_Add;
  Update := Cache_Update;
  Delete := Cache_Delete;
  Get := Cache_Get
|}.

(** Modelled from the spec: the [ListerWatcher] interface, [List() (objs,
    err)] and [Watch() (watcher, err)].  [L] is the state of the backend,
    which each call may advance.  A watcher is represented by the events
    that its channel delivers before it is closed or the context is
    cancelled. *)
Class ListerWatcher (Obj L : Type) : Type := {
  List : L → (GoError + list Obj) * L;
  Watch : L → (GoError + list (watch.Event Obj)) * L
}.

(** [type EventInterface interface { OnAdd; OnUpdate; OnDelete }].  [H] is
    the state of the observer object; a callback is an effect on it. *)
Class EventInterface (Obj H : Type) : Type := {
  OnAdd : Obj → H → H;
  OnUpdate : Obj → Obj → H → H;
  OnDelete : Obj → H → H
}.

(** [type EventHandler struct { AddFn; UpdateFn; DeleteFn }]: three optional
    functions, acting on a world [W]. *)
Record EventHandler (Obj W : Type) : Type := mkEventHandler {
  AddFn : option (Obj → W → W);
  UpdateFn : option (Obj → Obj → W → W);
  DeleteFn : option (Obj → W → W)
}.

Arguments mkEventHandler {Obj W} _ _ _.
Arguments AddFn {Obj W} _.
Arguments UpdateFn {Obj W} _.
Arguments DeleteFn {Obj W} _.

Section EventHandler.

Context {Obj W : Type}.

Definition EventHandler_OnAdd (obj : Obj) (h : EventHandler Obj W * W)
  : EventHandler Obj W * W :=
  match AddFn h.1 with
  | None => h
  | Some fn => (h.1, fn obj h.2)
  end.

Definition EventHandler_OnUpdate (old cur : Obj) (h : EventHandler Obj W * W)
  : EventHandler Obj W * W :=
  match UpdateFn h.1 with
  | None => h
  | Some fn => (h.1, fn old cur h.2)
  end.

Definition EventHandler_OnDelete (obj : Obj) (h : EventHandler Obj W * W)
  : EventHandler Obj W * W :=
  match DeleteFn h.1 with
  | None => h
  | Some fn => (h.1, fn obj h.2)
  end.

#[export] Instance EventHandler_EventInterface
  : EventInterface Obj (EventHandler Obj W * W) := {|
  OnAdd := EventHandler_OnAdd;
  OnUpdate := EventHandler_OnUpdate;
  OnDelete := EventHandler_OnDelete
|}.

End EventHandler.

(** An observer that only records the calls it receives, in order. *)
Inductive Notification (Obj : Type) : Type :=
| GotAdd (obj : Obj)
| GotUpdate (old cur : Obj)
| GotDelete (obj : Obj).

Arguments GotAdd {Obj} _.
Arguments GotUpdate {Obj} _ _.
Arguments GotDelete {Obj} _.

#[export] Instance Recorder {Obj : Type}
  : EventInterface Obj (list (Notification Obj)) := {|
  OnAdd obj log := log ++ [GotAdd obj];
  OnUpdate old cur log := log ++ [GotUpdate old cur];
  OnDelete obj log := log ++ [GotDelete obj]
|}.

(** ** The reflector *)

Section Reflector.

Import watch.

Context {Obj S L H : Type}.
Context `{!Store Obj S, !ListerWatcher Obj L, !EventInterface Obj H}.

(** Modelled from the spec: the optional annotation mapping of an object,
    [GetAnnotations() map[string]string]; [None] is the nil map. *)
Context (GetAnnotations : Obj → option (gmap string string)).

(** [type Reflector struct].  The context, its cancel function and the
    resync period only drive the timing of the concurrent tasks and are left
    out, as is [Run] itself, which starts the watch loop as a task of its own;
    [handler = None] is the nil interface value. *)
Record Reflector : Type := mkReflector {
  name : string;
  listWatch : L;
  store : S;
  handler : option H;
  underWatch : bool
}.

Definition NewReflector (name : string) (store : S) (lw : L)
    (handler : option H) : Reflector :=
  mkReflector name lw store handler false.

Definition withListWatch (r : Reflector) (lw : L) : Reflector :=
  mkReflector (name r) lw (store r) (handler r) (underWatch r).

Definition withStore (r : Reflector) (s : S) : Reflector :=
  mkReflector (name r) (listWatch r) s (handler r) (underWatch r).

Definition withUnderWatch (r : Reflector) (b : bool) : Reflector :=
  mkReflector (name r) (listWatch r) (store r) (handler r) b.

(** [if r.handler != nil { r.handler.<callback>(...) }] *)
Definition notify (r : Reflector) (callback : H → H) : Reflector :=
  match handler r with
  | Some h =>
      mkReflector (name r) (listWatch r) (store r) (Some (callback h))
                  (underWatch r)
  | None => r
  end.

(** The body of the [for _, obj := range objs] loop of [listAllData];
    the errors of [Update] and [Add] are dropped, as in the source. *)
Definition listAllData_each (r : Reflector) (obj : Obj) : Reflector :=
  match Get (store r) obj with
  | GetErr _ => r
  | Found oldObj =>
      let r := withStore r (Update (store r) obj).1 in
      notify r (OnUpdate oldObj obj)
  | Missing =>
      let r := withStore r (Add (store r) obj).1 in
      notify r (OnAdd obj)
  end.

Definition listAllData (r : Reflector) : Reflector :=
  let (objs, lw) := List (listWatch r) in
  let r := withListWatch r lw in
  match objs with
  | inl _ => r
  | inr objs => foldl listAllData_each r objs
  end.

Definition processAddUpdate (r : Reflector) (event : Event Obj) : Reflector :=
  match Get (store r) (Data event) with
  | GetErr _ => r
  | Found oldObj =>
      let r := withStore r (Update (store r) (Data event)).1 in
      notify r (OnUpdate oldObj (Data event))
  | Missing =>
      let r := withStore r (Add (store r) (Data event)).1 in
      notify r (OnAdd (Data event))
  end.

(** Indexing a Go map: the zero value when the key is missing. *)
Definition index (m : gmap string string) (key : string) : string :=
  default "" (m !! key).

(** [event.Data.GetAnnotations() != nil &&
     event.Data.GetAnnotations()["bk-bcs-inner-storage"] == "bkbcs-zookeeper"] *)
Definition fromZookeeper (obj : Obj) : bool :=
  match GetAnnotations obj with
  | None => false
  | Some annotations =>
      bool_decide (index annotations "bk-bcs-inner-storage" = "bkbcs-zookeeper")
  end.

Definition processDeletion (r : Reflector) (event : Event Obj) : Reflector :=
  match Get (store r) (Data event) with
  | GetErr _ => r
  | Found oldObj =>
      let r := withStore r (Delete (store r) (Data event)).1 in
      if fromZookeeper (Data event)
      then notify r (OnDelete oldObj)
      else notify r (OnDelete (Data event))
  | Missing => r
  end.

(** The [switch event.Type] of the watch loop. *)
Definition handleWatch_each (r : Reflector) (event : Event Obj) : Reflector :=
  match Type_ event with
  | EventSync | EventAdded | EventUpdated => processAddUpdate r event
  | EventDeleted => processDeletion r event
  | EventErr => r
  end.

(** [handleWatch], run on the events its channel delivers. *)
Definition handleWatch (r : Reflector) : Reflector :=
  if underWatch r then r
  else
    let r := withUnderWatch r true in
    let (watcher, lw) := Watch (listWatch r) in
    let r := withListWatch r lw in
    match watcher with
    | inl _ => withUnderWatch r false
    | inr channel => withUnderWatch (foldl handleWatch_each r channel) false
    end.

End Reflector.

Arguments Reflector : clear implicits.
Arguments mkReflector {S L H} _ _ _ _ _.

(** ** Vocabulary of the statements *)

Section Vocabulary.

Context {Obj : Type}.

(** The key of [item] can be derived. *)
Definition derivable (kf : ObjectKeyFunc Obj) (item : Obj) : Prop :=
  ∃ key, kf item = inr key.

(** The keys of the items of a list, in order; an item without a key
    contributes none. *)
Definition keysOf (kf : ObjectKeyFunc Obj) (items : list Obj) : list string :=
  omap (λ item, match kf item with inr key => Some key | inl _ => None end)
       items.

(** The last item of a list that has the given key, if any. *)
Definition lastWithKey (kf : ObjectKeyFunc Obj) (key : string)
    (items : list Obj) : option Obj :=
  last (filter (λ item, kf item = inr key) items).

(** The payload says that it comes from the backend that delivers no
    object on deletion: its annotation map is not nil and maps
    ["bk-bcs-inner-storage"] to ["bkbcs-zookeeper"]. *)
Definition noDeletionPayload (annotations : Obj → option (gmap string string))
    (obj : Obj) : Prop :=
  ∃ m, annotations obj = Some m ∧
       m !! "bk-bcs-inner-storage" = Some "bkbcs-zookeeper".

End Vocabulary.

Section ReconcilerVocabulary.

Context {Obj S L H : Type}.
Context `{!Store Obj S, !EventInterface Obj H}.

(** What the reconciler has to do with one object, in the words of the
    specification: read the store; on a hit, update the store and call
    [OnUpdate] with the old value and the object; on a miss, add to the store
    and call [OnAdd]; call nothing when there is no handler.  [r] is the
    reflector before and [r'] after. *)
Definition addOrUpdate (r : Reflector S L H) (obj : Obj)
    (r' : Reflector S L H) : Prop :=
  name r' = name r ∧ listWatch r' = listWatch r ∧
  underWatch r' = underWatch r ∧
  (handler r = None → handler r' = None) ∧
  match Get (store r) obj with
  | Found old =>
      store r' = (Update (store r) obj).1 ∧
      handler r' = OnUpdate old obj <$> handler r
  | Missing =>
      store r' = (Add (store r) obj).1 ∧
      handler r' = OnAdd obj <$> handler r
  | GetErr _ => True
  end.

End ReconcilerVocabulary.

(** ** Concrete objects and a scripted backend *)

Module Demo.

(** A namespaced object with optional annotations and some content. *)
Record Task : Type := mkTask {
  Namespace : string;
  Name : string;
  Annotations : option (gmap string string);
  Content : string
}.

(** A keying function in the style of the package's users:
    [namespace/name], and an error for an object without a name. *)
Definition taskKey : ObjectKeyFunc Task :=
  λ t, if decide (Name t = "") then inl "object has no name"
       else inr (Namespace t +:+ "/" +:+ Name t).

(** A backend that answers from a script: the n-th call of [List] (of
    [Watch]) returns the n-th scripted result, and an error once the script
    is used up. *)
Record Backend : Type := mkBackend {
  lists : list (GoError + list Task);
  watches : list (GoError + list (watch.Event Task))
}.

#[global] Instance Backend_ListerWatcher : ListerWatcher Task Backend := {|
  List b :=
    match lists b with
    | [] => (inl "backend unreachable", b)
    | answer :: rest => (answer, mkBackend rest (watches b))
    end;
  Watch b :=
    match watches b with
    | [] => (inl "backend unreachable", b)
    | answer :: rest => (answer, mkBackend (lists b) rest)
    end
|}.

Definition zk : option (gmap string string) :=
  Some {[ "bk-bcs-inner-storage" := "bkbcs-zookeeper" ]}.

Definition taskX : Task := mkTask "a" "x" None "v1".
Definition taskX' : Task := mkTask "a" "x" None "v2".
Definition taskY : Task := mkTask "a" "y" None "v1".
Definition taskXgone : Task := mkTask "a" "x" zk "".
Definition nameless : Task := mkTask "a" "" None "v1".

Definition cacheX : Cache Task := mkCache {[ "a/x" := taskX ]} taskKey.

(** A reflector on [cacheX] with a recording handler; the backend first
    fails to list, then lists three objects, the second of which has no
    key. *)
Definition backend : Backend :=
  mkBackend [inl "connection refused"; inr [taskX'; nameless; taskY]] [].

Definition reflectorX : Reflector (Cache Task) Backend (list (Notification Task)) :=
  NewReflector "demo" cacheX backend (Some []).

Definition listed : Backend :=
  mkBackend [inr [taskX'; nameless; taskY]] [].

Definition reflectorL : Reflector (Cache Task) Backend (list (Notification Task)) :=
  NewReflector "demo" cacheX listed (Some []).

(** Watch events: a deletion of ["a/x"] whose payload is the marked stub
    [taskXgone], a deletion of ["a/y"], a deletion of ["a/x"] with an
    unmarked payload, an update of ["a/x"], and an addition of an object
    without a key. *)
Definition deletedX : watch.Event Task :=
  watch.mkEvent watch.EventDeleted taskXgone.
Definition deletedY : watch.Event Task :=
  watch.mkEvent watch.EventDeleted taskY.
Definition deletedPlain : watch.Event Task :=
  watch.mkEvent watch.EventDeleted taskX'.
Definition updatedX : watch.Event Task :=
  watch.mkEvent watch.EventUpdated taskX'.
Definition addedNameless : watch.Event Task :=
  watch.mkEvent watch.EventAdded nameless.

End Demo.

(** ** Vocabulary of the further properties *)

Section FurtherVocabulary.

Context {Obj : Type}.

(** Every entry of the cache sits under the key of its own value. *)
Definition wellKeyed (c : Cache Obj) : Prop :=
  ∀ key item, dataMap c !! key = Some item → keyFunc c item = inr key.

(** The key of [item] can be derived, as a test. *)
Definition hasKey (kf : ObjectKeyFunc Obj) (item : Obj) : bool :=
  match kf item with
  | inr _ => true
  | inl _ => false
  end.

(** The event is an Error event. *)
Definition isError (event : watch.Event Obj) : bool :=
  match watch.Type_ event with
  | watch.EventErr => true
  | _ => false
  end.

(** The events of a channel that are not Error events. *)
Definition withoutErrors (channel : list (watch.Event Obj))
    : list (watch.Event Obj) :=
  filter (λ event, isError event = false) channel.

End FurtherVocabulary.

(** More objects for [Demo]: a second cache, and reflectors with and without
    a running watch loop. *)
Module Scenario.

Import Demo.

Definition taskZ : Task := mkTask "b" "z" None "v1".

Definition cacheXY : Cache Task :=
  mkCache {[ "a/x" := taskX; "a/y" := taskY ]} taskKey.

(** A backend that lists [taskY; taskZ] and whose watch delivers an Error
    event between an addition and a deletion of ["a/y"]. *)
Definition feed : Backend :=
  mkBackend [inr [taskY; taskZ]]
            [inr [watch.mkEvent watch.EventAdded taskY;
                  watch.mkEvent watch.EventErr nameless;
                  watch.mkEvent watch.EventDeleted taskY]].

Definition fresh : Reflector (Cache Task) Backend (list (Notification Task)) :=
  NewReflector "scenario" cacheX feed (Some []).

(** The same reflector once its cache holds the two listed objects. *)
Definition synced : Reflector (Cache Task) Backend (list (Notification Task)) :=
  NewReflector "scenario"
    (mkCache {[ "a/x" := taskX; "a/y" := taskY; "b/z" := taskZ ]} taskKey)
    feed (Some []).

Definition watching
    : Reflector (Cache Task) Backend (list (Notification Task)) :=
  mkReflector "scenario" feed cacheX (Some []) true.

Definition unreachable
    : Reflector (Cache Task) Backend (list (Notification Task)) :=
  NewReflector "scenario" cacheX (mkBackend [] []) (Some []).

(** An [EventHandler] with no function set, on a world that counts calls. *)
Definition silent : EventHandler Task nat * nat :=
  (mkEventHandler None None None, 0).

Definition muted : Reflector (Cache Task) Backend (EventHandler Task nat * nat) :=
  NewReflector "scenario" cacheX feed (Some silent).

(** A reflector whose backend lists the same three objects twice. *)
Definition again : Reflector (Cache Task) Backend (list (Notification Task)) :=
  NewReflector "scenario" cacheX
    (mkBackend [inr [taskX'; nameless; taskY]; inr [taskX'; nameless; taskY]]
               [])
    (Some []).

End Scenario.

(** * Properties of the cache *)

Section CacheProperties.

Context {Obj : Type}.
Implicit Types (c : Cache Obj) (obj item : Obj) (items : list Obj).
Implicit Types (key : string) (kf : ObjectKeyFunc Obj).

Lemma lastWithKey_nil kf key : lastWithKey kf key [] = None.
Proof. reflexivity. Qed.

Lemma lastWithKey_cons kf key item items :
  lastWithKey kf key (item :: items) =
  match lastWithKey kf key items with
  | Some found => Some found
  | None => if decide (kf item = inr key) then Some item else None
  end.
Proof.
  unfold lastWithKey. rewrite filter_cons.
  destruct (decide (kf item = inr key)) as [Heq|Hne].
  - rewrite last_cons. by destruct (last _).
  - by destruct (last _).
Qed.

Lemma keysOf_cons kf item items :
  keysOf kf (item :: items) =
  match kf item with
  | inr key => key :: keysOf kf items
  | inl _ => keysOf kf items
  end.
Proof. unfold keysOf. simpl. by destruct (kf item). Qed.

Lemma lastWithKey_None kf key items :
  lastWithKey kf key items = None ↔ key ∉ keysOf kf items.
Proof.
  induction items as [|item items IH].
  - split; [intros _; apply not_elem_of_nil | done].
  - rewrite lastWithKey_cons, keysOf_cons.
    destruct (kf item) as [err|k] eqn:Hk.
    + rewrite decide_False by done. rewrite <- IH.
      by destruct (lastWithKey kf key items).
    + rewrite not_elem_of_cons, <- IH.
      destruct (lastWithKey kf key items) as [found|].
      * split; [done | by intros [_ ?]].
      * destruct (decide (inr k = inr key)) as [[= ->]|Hne];
          [split; [done | by intros [? _]] |].
        split; [intros _; split; [congruence | done] | done].
Qed.

Lemma lastWithKey_Some kf key items found :
  lastWithKey kf key items = Some found → found ∈ items ∧ kf found = inr key.
Proof.
  unfold lastWithKey. intros Hlast.
  apply last_Some_elem_of, list_elem_of_filter in Hlast. tauto.
Qed.

(** One step of the loop of [Replace] and [Reset]. *)
Lemma insertAll_cons_ok c item items key :
  keyFunc c item = inr key →
  insertAll c (item :: items) = insertAll (setEntry c key item) items.
Proof. intros Hkey. cbn [insertAll]. by rewrite Hkey. Qed.

Lemma insertAll_keyFunc c items :
  keyFunc (insertAll c items).1 = keyFunc c.
Proof.
  revert c. induction items as [|item items IH]; intros c; [done|].
  cbn [insertAll]. destruct (keyFunc c item) as [err|key]; [done|].
  by rewrite IH.
Qed.

(** When every key derives, the loop runs to its end, and each key holds
    the last item that has it, or else what it held before. *)
Lemma insertAll_derivable c items :
  Forall (derivable (keyFunc c)) items →
  (insertAll c items).2 = None ∧
  ∀ key, dataMap (insertAll c items).1 !! key =
         match lastWithKey (keyFunc c) key items with
         | Some item => Some item
         | None => dataMap c !! key
         end.
Proof.
  revert c. induction items as [|item items IH]; intros c Hall.
  - by split.
  - apply Forall_cons in Hall as [[k Hk] Hall].
    rewrite (insertAll_cons_ok _ _ _ _ Hk).
    destruct (IH (setEntry c k item)) as [Hnil Hlook]; [done|].
    split; [done|]. intros key. rewrite Hlook, lastWithKey_cons. cbn.
    destruct (lastWithKey (keyFunc c) key items); [done|].
    rewrite Hk. destruct (decide (inr k = inr key)) as [[= ->]|Hne].
    + by rewrite lookup_insert_eq.
    + rewrite lookup_insert_ne; [done | congruence].
Qed.

(** The loop on a concatenation: the second part runs only if the first
    one ended without an error. *)
Lemma insertAll_app c items rest :
  insertAll c (items ++ rest) =
  match (insertAll c items).2 with
  | None => insertAll (insertAll c items).1 rest
  | Some err => insertAll c items
  end.
Proof.
  revert c. induction items as [|item items IH]; intros c; [done|].
  cbn [app insertAll]. destruct (keyFunc c item) as [err|key]; [done|].
  apply IH.
Qed.

Lemma insertAll_first_failure c items i bad err :
  items !! i = Some bad →
  keyFunc c bad = inl err →
  Forall (derivable (keyFunc c)) (take i items) →
  insertAll c items = ((insertAll c (take i items)).1, Some (KeyError bad err)).
Proof.
  intros Hi Hbad Hpre.
  rewrite <- (take_drop_middle items i bad Hi) at 1.
  rewrite insertAll_app.
  destruct (insertAll_derivable c (take i items) Hpre) as [-> _].
  cbn [insertAll]. by rewrite insertAll_keyFunc, Hbad.
Qed.

(** A list with an item whose key does not derive has a first such item:
    the case above covers every failing run of the loop. *)
Lemma first_key_failure kf items :
  ¬ Forall (derivable kf) items →
  ∃ i bad err, items !! i = Some bad ∧ kf bad = inl err ∧
               Forall (derivable kf) (take i items).
Proof.
  induction items as [|item items IH]; intros Hnot.
  - exfalso. apply Hnot. constructor.
  - destruct (kf item) as [err|key] eqn:Hkey.
    + exists 0, item, err. split_and!; [done | done | constructor].
    + destruct IH as (i & bad & err & Hi & Hbad & Hpre).
      { intros Hall. apply Hnot. constructor; [by exists key | done]. }
      exists (Datatypes.S i), bad, err. split_and!; [done | done |].
      cbn [take]. constructor; [by exists key | done].
Qed.

Lemma elem_of_ListKeys c key :
  key ∈ Cache_ListKeys c ↔ is_Some (dataMap c !! key).
Proof.
  unfold Cache_ListKeys. rewrite list_elem_of_fmap. split.
  - intros [[k v] [-> Hin]]. apply elem_of_map_to_list in Hin. by exists v.
  - intros [v Hv]. exists (key, v). by rewrite elem_of_map_to_list.
Qed.

(** ** [Add], [Get] and [Delete] *)

(** C8. For every cache and every object whose key derives, [Add] raises no
    error and a following [Get] of the object returns the object itself,
    found, without an error. *)
Theorem Add_then_Get c obj key :
  keyFunc c obj = inr key →
  (Cache_Add c obj).2 = None ∧
  Cache_Get (Cache_Add c obj).1 obj = Found obj.
Proof.
  intros Hkey. unfold Cache_Add, Cache_Get. rewrite Hkey. cbn.
  by rewrite Hkey, lookup_insert_eq.
Qed.

(** C7. For every cache and every object whose key derives: when the key is
    present, [Delete] returns no error, removes exactly that entry, and a
    following [Get] reports the object missing; when the key is absent,
    [Delete] returns [DataNoExist] and the cache is the one it was. *)
Theorem Delete_present_and_absent c obj key :
  keyFunc c obj = inr key →
  (is_Some (dataMap c !! key) →
     (Cache_Delete c obj).2 = None ∧
     dataMap (Cache_Delete c obj).1 = delete key (dataMap c) ∧
     Cache_Get (Cache_Delete c obj).1 obj = Missing) ∧
  (dataMap c !! key = None →
     Cache_Delete c obj = (c, Some (DataNoExist obj))).
Proof.
  intros Hkey. unfold Cache_Delete, Cache_Get. rewrite Hkey. split.
  - intros [old ->]. cbn. by rewrite Hkey, lookup_delete_eq.
  - by intros ->.
Qed.

(** ** [Replace] and [Reset] *)

(** C6. For every list of items whose keys all derive, [Replace] returns no
    error; afterwards each key holds the last item of the list that has this
    key, and a key that no item has holds what it held before. *)
Theorem Replace_upserts_and_keeps_the_rest c items :
  Forall (derivable (keyFunc c)) items →
  (Cache_Replace c items).2 = None ∧
  keyFunc (Cache_Replace c items).1 = keyFunc c ∧
  (∀ key, dataMap (Cache_Replace c items).1 !! key =
          match lastWithKey (keyFunc c) key items with
          | Some item => Some item
          | None => dataMap c !! key
          end) ∧
  (∀ key, key ∉ keysOf (keyFunc c) items →
          dataMap (Cache_Replace c items).1 !! key = dataMap c !! key) ∧
  (∀ item, item ∈ items →
          ∃ key, keyFunc c item = inr key ∧
                 is_Some (dataMap (Cache_Replace c items).1 !! key)) ∧
  dom (dataMap c) ⊆ dom (dataMap (Cache_Replace c items).1).
Proof.
  intros Hall. unfold Cache_Replace.
  destruct (insertAll_derivable c items Hall) as [Hnil Hlook].
  split_and!; [done | apply insertAll_keyFunc | done | | |].
  - intros key Hkey. apply lastWithKey_None in Hkey. by rewrite Hlook, Hkey.
  - intros item Hin.
    destruct (proj1 (Forall_forall _ _) Hall item Hin) as [key Hkey].
    exists key. split; [done|]. rewrite Hlook.
    destruct (lastWithKey (keyFunc c) key items) eqn:Hlast; [done|].
    apply lastWithKey_None in Hlast. exfalso. apply Hlast.
    unfold keysOf. apply list_elem_of_omap. exists item. by rewrite Hkey.
  - intros key [old Hold]%elem_of_dom. apply elem_of_dom. rewrite Hlook, Hold.
    by destruct (lastWithKey (keyFunc c) key items).
Qed.

(** C5. For every list of items whose keys all derive and every prior
    cache, [Reset] returns no error; afterwards [ListKeys] lists exactly the
    keys of the items, each once; [List] has as many values as there are keys
    of items, the keys of the listed values are, up to the order of the two
    listings, the listed keys, and each listed value is one of the items;
    every other key is gone. *)
Theorem Reset_then_list_is_key_set c items :
  Forall (derivable (keyFunc c)) items →
  (Cache_Reset c items).2 = None ∧
  (∀ key, key ∈ Cache_ListKeys (Cache_Reset c items).1 ↔
          key ∈ keysOf (keyFunc c) items) ∧
  NoDup (Cache_ListKeys (Cache_Reset c items).1) ∧
  length (Cache_ListKeys (Cache_Reset c items).1) =
    size (list_to_set (C := gset string) (keysOf (keyFunc c) items)) ∧
  length (Cache_List (Cache_Reset c items).1) =
    size (list_to_set (C := gset string) (keysOf (keyFunc c) items)) ∧
  keyFunc c <$> Cache_List (Cache_Reset c items).1 ≡ₚ
    inr <$> Cache_ListKeys (Cache_Reset c items).1 ∧
  (∀ item, item ∈ Cache_List (Cache_Reset c items).1 → item ∈ items) ∧
  (∀ key, key ∉ keysOf (keyFunc c) items →
          dataMap (Cache_Reset c items).1 !! key = None).
Proof.
  intros Hall. unfold Cache_Reset.
  destruct (insertAll_derivable (mkCache ∅ (keyFunc c)) items Hall)
    as [Hnil Hlook].
  cbn [dataMap keyFunc] in Hlook.
  set (c' := (insertAll (mkCache ∅ (keyFunc c)) items).1) in *.
  assert (Hget : ∀ key, dataMap c' !! key = lastWithKey (keyFunc c) key items).
  { intros key. rewrite Hlook, lookup_empty. by destruct (lastWithKey _ _ _). }
  assert (Hmem : ∀ key, key ∈ Cache_ListKeys c' ↔
                        key ∈ keysOf (keyFunc c) items).
  { intros key. rewrite elem_of_ListKeys, Hget, <- not_eq_None_Some.
    rewrite lastWithKey_None. split; [apply dec_stable | tauto]. }
  assert (Hentry : ∀ key item, (key, item) ∈ map_to_list (dataMap c') →
                               item ∈ items ∧ keyFunc c item = inr key).
  { intros key item Hin. apply elem_of_map_to_list in Hin.
    rewrite Hget in Hin. by apply lastWithKey_Some in Hin. }
  assert (Hsize : size (dataMap c') =
            size (list_to_set (C := gset string) (keysOf (keyFunc c) items))).
  { rewrite <- size_dom. f_equal. apply set_eq. intros key.
    by rewrite elem_of_list_to_set, <- Hmem, elem_of_ListKeys, elem_of_dom. }
  split_and!; [done | done | apply NoDup_fst_map_to_list | | | | |].
  - unfold Cache_ListKeys. by rewrite length_fmap, length_map_to_list.
  - unfold Cache_List. by rewrite length_fmap, length_map_to_list.
  - assert (Heq : keyFunc c <$> Cache_List c' = inr <$> Cache_ListKeys c');
      [|by rewrite Heq].
    unfold Cache_List, Cache_ListKeys. rewrite <- !list_fmap_compose.
    apply Forall_fmap_ext, Forall_forall. intros [key item] Hin.
    by apply Hentry in Hin as [_ ?].
  - unfold Cache_List. intros item [[key item'] [-> Hin]]%list_elem_of_fmap.
    by apply Hentry in Hin as [? _].
  - intros key Hkey. by rewrite Hget, lastWithKey_None.
Qed.

(** C9. When the keying function fails on the item at index [i] and
    succeeds on the items before it, [Replace] and [Reset] both return the
    [KeyError] of that item; the cache then is the one obtained from the
    items before [i] alone, whatever follows [i].  For [Replace] this is the
    prior contents with those items written over them; for [Reset] the prior
    contents are gone and the keys left are exactly those of the items before
    [i]. *)
Theorem Replace_Reset_stop_at_key_failure c items i bad err :
  items !! i = Some bad →
  keyFunc c bad = inl err →
  Forall (derivable (keyFunc c)) (take i items) →
  Cache_Replace c items =
    ((Cache_Replace c (take i items)).1, Some (KeyError bad err)) ∧
  (∀ key, dataMap (Cache_Replace c items).1 !! key =
          match lastWithKey (keyFunc c) key (take i items) with
          | Some item => Some item
          | None => dataMap c !! key
          end) ∧
  Cache_Reset c items =
    ((Cache_Reset c (take i items)).1, Some (KeyError bad err)) ∧
  (∀ key, dataMap (Cache_Reset c items).1 !! key =
          lastWithKey (keyFunc c) key (take i items)) ∧
  (∀ key, key ∈ Cache_ListKeys (Cache_Reset c items).1 ↔
          key ∈ keysOf (keyFunc c) (take i items)).
Proof.
  intros Hi Hbad Hpre. unfold Cache_Replace, Cache_Reset.
  rewrite (insertAll_first_failure c items i bad err Hi Hbad Hpre).
  rewrite (insertAll_first_failure (mkCache ∅ (keyFunc c)) items i bad err
             Hi Hbad Hpre).
  cbn [fst].
  destruct (insertAll_derivable c (take i items) Hpre) as [_ Hlook].
  destruct (insertAll_derivable (mkCache ∅ (keyFunc c)) (take i items) Hpre)
    as [_ Hlook0].
  cbn [dataMap keyFunc] in Hlook0.
  assert (Hget : ∀ key,
    dataMap (insertAll (mkCache ∅ (keyFunc c)) (take i items)).1 !! key =
    lastWithKey (keyFunc c) key (take i items)).
  { intros key. rewrite Hlook0, lookup_empty. by destruct (lastWithKey _ _ _). }
  split_and!; [done | done | done | done |].
  intros key. rewrite elem_of_ListKeys, Hget, <- not_eq_None_Some.
  rewrite lastWithKey_None. split; [apply dec_stable | tauto].
Qed.

End CacheProperties.

(** Witnesses of the cache properties, on the objects of [Demo]. *)

Lemma Add_then_Get_witness :
  keyFunc Demo.cacheX Demo.taskY = inr "a/y" ∧
  (Cache_Add Demo.cacheX Demo.taskY).2 = None ∧
  Cache_Get (Cache_Add Demo.cacheX Demo.taskY).1 Demo.taskY = Found Demo.taskY.
Proof.
  split; [reflexivity|].
  apply (Add_then_Get Demo.cacheX Demo.taskY "a/y"). reflexivity.
Defined.

Lemma Delete_present_and_absent_witness :
  keyFunc Demo.cacheX Demo.taskX' = inr "a/x" ∧
  is_Some (dataMap Demo.cacheX !! "a/x") ∧
  Cache_Get (Cache_Delete Demo.cacheX Demo.taskX').1 Demo.taskX' = Missing ∧
  keyFunc Demo.cacheX Demo.taskY = inr "a/y" ∧
  dataMap Demo.cacheX !! "a/y" = None ∧
  Cache_Delete Demo.cacheX Demo.taskY =
    (Demo.cacheX, Some (DataNoExist Demo.taskY)).
Proof.
  assert (Hx : keyFunc Demo.cacheX Demo.taskX' = inr "a/x") by reflexivity.
  assert (Hy : keyFunc Demo.cacheX Demo.taskY = inr "a/y") by reflexivity.
  assert (Hin : is_Some (dataMap Demo.cacheX !! "a/x"))
    by (exists Demo.taskX; reflexivity).
  assert (Hout : dataMap Demo.cacheX !! "a/y" = None) by reflexivity.
  split_and!; [done | done | | done | done |].
  - apply (Delete_present_and_absent Demo.cacheX Demo.taskX' "a/x" Hx), Hin.
  - apply (Delete_present_and_absent Demo.cacheX Demo.taskY "a/y" Hy), Hout.
Defined.

Lemma Demo_derivable (items : list Demo.Task) :
  Forall (λ item, Demo.Name item ≠ "") items →
  Forall (derivable Demo.taskKey) items.
Proof.
  intros Hall. eapply Forall_impl; [exact Hall|]. intros item Hname.
  exists (Demo.Namespace item +:+ "/" +:+ Demo.Name item).
  unfold Demo.taskKey. by rewrite decide_False.
Qed.

Lemma Replace_upserts_and_keeps_the_rest_witness :
  Forall (derivable (keyFunc Demo.cacheX)) [Demo.taskY; Demo.taskY] ∧
  (Cache_Replace Demo.cacheX [Demo.taskY; Demo.taskY]).2 = None ∧
  dataMap (Cache_Replace Demo.cacheX [Demo.taskY; Demo.taskY]).1 !! "a/x" =
    dataMap Demo.cacheX !! "a/x".
Proof.
  assert (Hall : Forall (derivable (keyFunc Demo.cacheX))
                        [Demo.taskY; Demo.taskY]).
  { apply Demo_derivable. by repeat constructor. }
  split; [done|].
  destruct (Replace_upserts_and_keeps_the_rest Demo.cacheX _ Hall)
    as (Hnil & _ & _ & Hframe & _).
  split; [done|]. apply Hframe.
  change (keysOf (keyFunc Demo.cacheX) [Demo.taskY; Demo.taskY])
    with ["a/y"; "a/y"].
  intros Hin. repeat (apply elem_of_cons in Hin as [Hin|Hin]; [discriminate|]).
  by apply elem_of_nil in Hin.
Defined.

Lemma Reset_then_list_is_key_set_witness :
  Forall (derivable (keyFunc Demo.cacheX)) [Demo.taskY; Demo.taskY] ∧
  (Cache_Reset Demo.cacheX [Demo.taskY; Demo.taskY]).2 = None ∧
  length (Cache_ListKeys (Cache_Reset Demo.cacheX [Demo.taskY; Demo.taskY]).1)
    = 1 ∧
  dataMap (Cache_Reset Demo.cacheX [Demo.taskY; Demo.taskY]).1 !! "a/x" = None.
Proof.
  assert (Hall : Forall (derivable (keyFunc Demo.cacheX))
                        [Demo.taskY; Demo.taskY]).
  { apply Demo_derivable. by repeat constructor. }
  split; [done|].
  destruct (Reset_then_list_is_key_set Demo.cacheX _ Hall)
    as (Hnil & _ & _ & Hlen & _ & _ & _ & Hgone).
  split_and!; [done | by rewrite Hlen |]. apply Hgone.
  change (keysOf (keyFunc Demo.cacheX) [Demo.taskY; Demo.taskY])
    with ["a/y"; "a/y"].
  intros Hin. repeat (apply elem_of_cons in Hin as [Hin|Hin]; [discriminate|]).
  by apply elem_of_nil in Hin.
Defined.

Lemma Replace_Reset_stop_at_key_failure_witness :
  [Demo.taskY; Demo.nameless; Demo.taskX'] !! 1 = Some Demo.nameless ∧
  keyFunc Demo.cacheX Demo.nameless = inl "object has no name" ∧
  Forall (derivable (keyFunc Demo.cacheX))
         (take 1 [Demo.taskY; Demo.nameless; Demo.taskX']) ∧
  Cache_Replace Demo.cacheX [Demo.taskY; Demo.nameless; Demo.taskX'] =
    ((Cache_Replace Demo.cacheX [Demo.taskY]).1,
     Some (KeyError Demo.nameless "object has no name")) ∧
  Cache_Reset Demo.cacheX [Demo.taskY; Demo.nameless; Demo.taskX'] =
    ((Cache_Reset Demo.cacheX [Demo.taskY]).1,
     Some (KeyError Demo.nameless "object has no name")).
Proof.
  assert (Hpre : Forall (derivable (keyFunc Demo.cacheX))
                        (take 1 [Demo.taskY; Demo.nameless; Demo.taskX'])).
  { apply Demo_derivable. by repeat constructor. }
  split_and!; [reflexivity | reflexivity | done | |];
    apply (Replace_Reset_stop_at_key_failure Demo.cacheX
             [Demo.taskY; Demo.nameless; Demo.taskX'] 1 Demo.nameless
             "object has no name" eq_refl eq_refl Hpre).
Defined.

(** * Properties of the reflector *)

Section ReflectorProperties.

Import watch.

Context {Obj S L H : Type}.
Context `{!Store Obj S, !ListerWatcher Obj L, !EventInterface Obj H}.
Context (annotations : Obj → option (gmap string string)).
Implicit Types (r : Reflector S L H) (obj : Obj) (event : Event Obj).

Lemma notify_handler r (callback : H → H) :
  handler (notify r callback) = callback <$> handler r.
Proof. unfold notify. by destruct (handler r) eqn:Hh. Qed.

Lemma notify_rest r (callback : H → H) :
  name (notify r callback) = name r ∧
  listWatch (notify r callback) = listWatch r ∧
  store (notify r callback) = store r ∧
  underWatch (notify r callback) = underWatch r.
Proof. unfold notify. destruct (handler r); repeat split. Qed.

(** The loop body of [listAllData] does what the specification asks for
    one object. *)
Lemma listAllData_each_addOrUpdate r obj :
  addOrUpdate r obj (listAllData_each r obj).
Proof.
  unfold addOrUpdate, listAllData_each.
  destruct (Get (store r) obj) as [err|old|]; [done| |].
  - destruct (notify_rest (withStore r (Update (store r) obj).1)
                          (OnUpdate old obj)) as (-> & -> & -> & ->).
    rewrite notify_handler. cbn. split_and!; try done. by intros ->.
  - destruct (notify_rest (withStore r (Add (store r) obj).1) (OnAdd obj))
      as (-> & -> & -> & ->).
    rewrite notify_handler. cbn. split_and!; try done. by intros ->.
Qed.

(** [processAddUpdate] is the loop body of [listAllData] applied to the
    payload of the event. *)
Lemma processAddUpdate_listAllData_each r event :
  processAddUpdate r event = listAllData_each r (Data event).
Proof. reflexivity. Qed.

(** [listAllData] on a successful listing. *)
Lemma listAllData_ok r objs lw :
  List (listWatch r) = (inr objs, lw) →
  listAllData r = foldl listAllData_each (withListWatch r lw) objs.
Proof. unfold listAllData. by intros ->. Qed.

(** C1. In a full synchronization pass that lists [pre ++ obj :: post],
    the object [obj] is handled in the state [r1] reached after [pre], the
    pass goes on with [post] afterwards, and the handling is the one of the
    specification: a hit of [Get] gives [Update] and [OnUpdate old obj], a
    miss gives [Add] and [OnAdd obj], and a nil handler is never called.  An
    Added, Updated or Synced event is handled by [processAddUpdate], which
    does the same with the payload of the event. *)
Theorem reconciler_adds_or_updates :
  (∀ r lw pre obj post,
     List (listWatch r) = (inr (pre ++ obj :: post), lw) →
     let r1 := foldl listAllData_each (withListWatch r lw) pre in
     listAllData r = foldl listAllData_each (listAllData_each r1 obj) post ∧
     addOrUpdate r1 obj (listAllData_each r1 obj)) ∧
  (∀ r event,
     Type_ event = EventAdded ∨ Type_ event = EventUpdated ∨
     Type_ event = EventSync →
     handleWatch_each annotations r event = processAddUpdate r event ∧
     addOrUpdate r (Data event) (processAddUpdate r event)).
Proof.
  split.
  - intros r lw pre obj post Hlist r1.
    rewrite (listAllData_ok r _ lw Hlist), foldl_app. cbn [foldl].
    split; [done | apply listAllData_each_addOrUpdate].
  - intros r event Hty. split.
    + unfold handleWatch_each. by destruct Hty as [->|[->| ->]].
    + rewrite processAddUpdate_listAllData_each.
      apply listAllData_each_addOrUpdate.
Qed.

(** C10. When [Get] returns an error for the payload of a watch event,
    [processAddUpdate] and [processDeletion] return the reflector as it was
    (the same store, the same handler state: nothing was called), and the
    watch loop goes on with the events that follow. *)
Theorem watch_Get_error_is_skipped r event rest err :
  Get (store r) (Data event) = GetErr err →
  processAddUpdate r event = r ∧
  processDeletion annotations r event = r ∧
  handleWatch_each annotations r event = r ∧
  foldl (handleWatch_each annotations) r (event :: rest) =
    foldl (handleWatch_each annotations) r rest.
Proof.
  intros Hget.
  assert (Hadd : processAddUpdate r event = r)
    by (unfold processAddUpdate; by rewrite Hget).
  assert (Hdel : processDeletion annotations r event = r)
    by (unfold processDeletion; by rewrite Hget).
  assert (Heach : handleWatch_each annotations r event = r)
    by (unfold handleWatch_each; by destruct (Type_ event)).
  split_and!; [done | done | done |]. cbn [foldl]. by rewrite Heach.
Qed.


End ReflectorProperties.

(** * The reflector on a [Cache] *)

Section ReflectorOnCache.

Import watch.

Context {Obj L H : Type}.
Context `{!ListerWatcher Obj L, !EventInterface Obj H}.
Implicit Types (r : Reflector (Cache Obj) L H) (obj : Obj) (event : Event Obj).
Implicit Types (c : Cache Obj) (key : string).

Lemma Get_Cache c obj key :
  keyFunc c obj = inr key →
  Get c obj = match dataMap c !! key with
              | Some item => Found item
              | None => Missing
              end.
Proof. intros Hkey. cbn. unfold Cache_Get. by rewrite Hkey. Qed.

(** One object of a full pass never shrinks the key set of the cache. *)
Lemma listAllData_each_dom r obj :
  dom (dataMap (store r)) ⊆ dom (dataMap (store (listAllData_each r obj))).
Proof.
  unfold listAllData_each. cbn. unfold Cache_Get, Cache_Update, Cache_Add.
  destruct (keyFunc (store r) obj) as [err|key]; [done|].
  destruct (dataMap (store r) !! key) as [old|];
    (match goal with
     | |- context [notify ?r0 ?f] =>
         destruct (notify_rest r0 f) as (_ & _ & -> & _)
     end); cbn; rewrite dom_insert_L; set_solver.
Qed.

Lemma listAllData_loop_dom r objs :
  dom (dataMap (store r)) ⊆
  dom (dataMap (store (foldl listAllData_each r objs))).
Proof.
  revert r. induction objs as [|obj objs IH]; intros r; [done|].
  cbn [foldl]. etrans; [apply (listAllData_each_dom r obj) | apply IH].
Qed.

Lemma listAllData_dom r :
  dom (dataMap (store r)) ⊆ dom (dataMap (store (listAllData r))).
Proof.
  unfold listAllData. destruct (List (listWatch r)) as [[err|objs] lw];
    [done|]. apply (listAllData_loop_dom (withListWatch r lw)).
Qed.

(** C3. Whatever the store holds and whatever [List] answers, with success
    or with an error, every key that is in the cache before [listAllData] is
    in it afterwards: the key set after the pass includes the key set
    before, and so does what [ListKeys] lists. *)
Theorem listAllData_never_removes r :
  dom (dataMap (store r)) ⊆ dom (dataMap (store (listAllData r))) ∧
  Cache_ListKeys (store r) ⊆ Cache_ListKeys (store (listAllData r)).
Proof.
  split; [apply listAllData_dom|].
  intros key. rewrite !elem_of_ListKeys, <- !elem_of_dom.
  apply listAllData_dom.
Qed.

Context (annotations : Obj → option (gmap string string)).

(** The test of the source, which indexes the annotation map the Go way,
    says that the payload is marked. *)
Lemma fromZookeeper_noDeletionPayload obj :
  fromZookeeper annotations obj = true ↔ noDeletionPayload annotations obj.
Proof.
  unfold fromZookeeper, noDeletionPayload, index.
  destruct (annotations obj) as [m|]; [|split; [done | by intros (? & ? & _)]].
  rewrite bool_decide_eq_true. split.
  - intros Hidx. exists m. split; [done|].
    destruct (m !! "bk-bcs-inner-storage") as [v|]; cbn in Hidx;
      [by subst | done].
  - intros (m' & [= <-] & ->). done.
Qed.

(** C2. A Deleted event whose payload has the key [key]: the watch loop
    hands it to [processDeletion] and goes on with the events that follow.
    When the cache holds [cached] under [key], the entry is removed and
    nothing else changes in the cache, and the handler, if there is one,
    gets [OnDelete cached] when the payload is marked as coming without a
    deletion payload and [OnDelete] of the payload otherwise.  When the cache
    holds nothing under [key], the reflector stays as it is: the same cache,
    no call. *)
Theorem Deleted_event r event rest key :
  Type_ event = EventDeleted →
  keyFunc (store r) (Data event) = inr key →
  handleWatch_each annotations r event = processDeletion annotations r event ∧
  foldl (handleWatch_each annotations) r (event :: rest) =
    foldl (handleWatch_each annotations)
          (processDeletion annotations r event) rest ∧
  match dataMap (store r) !! key with
  | Some cached =>
      store (processDeletion annotations r event) =
        mkCache (delete key (dataMap (store r))) (keyFunc (store r)) ∧
      dataMap (store (processDeletion annotations r event)) !! key = None ∧
      (noDeletionPayload annotations (Data event) →
         handler (processDeletion annotations r event) =
           OnDelete cached <$> handler r) ∧
      (¬ noDeletionPayload annotations (Data event) →
         handler (processDeletion annotations r event) =
           OnDelete (Data event) <$> handler r)
  | None => processDeletion annotations r event = r
  end.
Proof.
  intros Hty Hkey.
  assert (Heach : handleWatch_each annotations r event =
                  processDeletion annotations r event)
    by (unfold handleWatch_each; by rewrite Hty).
  split_and!; [done | cbn [foldl]; by rewrite Heach |].
  unfold processDeletion. rewrite (Get_Cache _ _ _ Hkey).
  destruct (dataMap (store r) !! key) as [cached|] eqn:Hcached; [|done].
  assert (Hdel : (Delete (store r) (Data event)).1 =
                 mkCache (delete key (dataMap (store r))) (keyFunc (store r))).
  { cbn. unfold Cache_Delete. by rewrite Hkey, Hcached. }
  rewrite Hdel.
  pose proof (fromZookeeper_noDeletionPayload (Data event)) as Hzk.
  destruct (fromZookeeper annotations (Data event));
    (match goal with
     | |- context [notify ?r0 ?f] =>
         destruct (notify_rest r0 f) as (_ & _ & -> & _);
         rewrite (notify_handler r0 f)
     end); cbn; rewrite lookup_delete_eq; split_and!; try done.
  - intros Hno. exfalso. apply Hno, Hzk. done.
  - intros Hyes. apply Hzk in Hyes. done.
Qed.

End ReflectorOnCache.

(** * The reflector at work on the objects of [Demo] *)

(** A pass over [taskX'; nameless; taskY] on a cache that holds ["a/x"]:
    one update, one object skipped, one addition. *)
Example full_pass_on_Demo :
  handler (listAllData Demo.reflectorL) =
    Some [GotUpdate Demo.taskX Demo.taskX'; GotAdd Demo.taskY] ∧
  dataMap (store (listAllData Demo.reflectorL)) =
    {[ "a/x" := Demo.taskX'; "a/y" := Demo.taskY ]}.
Proof. split; reflexivity. Qed.

(** The watch loop on a marked deletion of ["a/x"] followed by a deletion of
    the absent ["a/y"]: one [OnDelete], with the cached object. *)
Example watch_deletions_on_Demo :
  handler (foldl (handleWatch_each Demo.Annotations) Demo.reflectorX
                 [Demo.deletedX; Demo.deletedY]) =
    Some [GotDelete Demo.taskX] ∧
  dataMap (store (foldl (handleWatch_each Demo.Annotations) Demo.reflectorX
                        [Demo.deletedX; Demo.deletedY])) = ∅.
Proof. split; reflexivity. Qed.

Lemma reconciler_adds_or_updates_witness :
  List (listWatch Demo.reflectorL) =
    (inr ([] ++ Demo.taskX' :: [Demo.nameless; Demo.taskY]),
     Demo.mkBackend [] []) ∧
  addOrUpdate (withListWatch Demo.reflectorL (Demo.mkBackend [] []))
    Demo.taskX'
    (listAllData_each (withListWatch Demo.reflectorL (Demo.mkBackend [] []))
       Demo.taskX') ∧
  watch.Type_ Demo.updatedX = watch.EventUpdated ∧
  addOrUpdate Demo.reflectorX (watch.Data Demo.updatedX)
    (processAddUpdate Demo.reflectorX Demo.updatedX).
Proof.
  assert (Hlist : List (listWatch Demo.reflectorL) =
            (inr ([] ++ Demo.taskX' :: [Demo.nameless; Demo.taskY]),
             Demo.mkBackend [] [])) by reflexivity.
  assert (Hty : watch.Type_ Demo.updatedX = watch.EventUpdated)
    by reflexivity.
  split_and!; [done | | done |].
  - apply (proj1 (reconciler_adds_or_updates Demo.Annotations)
             Demo.reflectorL (Demo.mkBackend [] []) [] Demo.taskX'
             [Demo.nameless; Demo.taskY] Hlist).
  - apply (proj2 (reconciler_adds_or_updates Demo.Annotations)
             Demo.reflectorX Demo.updatedX (or_intror (or_introl Hty))).
Defined.

Lemma watch_Get_error_is_skipped_witness :
  Get (store Demo.reflectorX) (watch.Data Demo.addedNameless) =
    GetErr (KeyError Demo.nameless "object has no name") ∧
  foldl (handleWatch_each Demo.Annotations) Demo.reflectorX
        [Demo.addedNameless; Demo.deletedX] =
    foldl (handleWatch_each Demo.Annotations) Demo.reflectorX [Demo.deletedX].
Proof.
  assert (Hget : Get (store Demo.reflectorX) (watch.Data Demo.addedNameless) =
            GetErr (KeyError Demo.nameless "object has no name"))
    by reflexivity.
  split; [done|].
  apply (watch_Get_error_is_skipped Demo.Annotations Demo.reflectorX
           Demo.addedNameless [Demo.deletedX] _ Hget).
Defined.


Lemma Deleted_event_witness :
  watch.Type_ Demo.deletedX = watch.EventDeleted ∧
  keyFunc (store Demo.reflectorX) (watch.Data Demo.deletedX) = inr "a/x" ∧
  noDeletionPayload Demo.Annotations (watch.Data Demo.deletedX) ∧
  handler (processDeletion Demo.Annotations Demo.reflectorX Demo.deletedX) =
    Some [GotDelete Demo.taskX] ∧
  watch.Type_ Demo.deletedPlain = watch.EventDeleted ∧
  keyFunc (store Demo.reflectorX) (watch.Data Demo.deletedPlain) = inr "a/x" ∧
  ¬ noDeletionPayload Demo.Annotations (watch.Data Demo.deletedPlain) ∧
  handler (processDeletion Demo.Annotations Demo.reflectorX Demo.deletedPlain)
    = Some [GotDelete Demo.taskX'] ∧
  watch.Type_ Demo.deletedY = watch.EventDeleted ∧
  keyFunc (store Demo.reflectorX) (watch.Data Demo.deletedY) = inr "a/y" ∧
  processDeletion Demo.Annotations Demo.reflectorX Demo.deletedY =
    Demo.reflectorX.
Proof.
  assert (Hmark : noDeletionPayload Demo.Annotations
                    (watch.Data Demo.deletedX)).
  { eexists. split; reflexivity. }
  assert (Hplain : ¬ noDeletionPayload Demo.Annotations
                     (watch.Data Demo.deletedPlain)).
  { intros (m & Hm & _). discriminate Hm. }
  assert (HtyX : watch.Type_ Demo.deletedX = watch.EventDeleted)
    by reflexivity.
  assert (HtyP : watch.Type_ Demo.deletedPlain = watch.EventDeleted)
    by reflexivity.
  assert (HtyY : watch.Type_ Demo.deletedY = watch.EventDeleted)
    by reflexivity.
  assert (HkeyX : keyFunc (store Demo.reflectorX) (watch.Data Demo.deletedX) =
            inr "a/x") by reflexivity.
  assert (HkeyP : keyFunc (store Demo.reflectorX)
                    (watch.Data Demo.deletedPlain) = inr "a/x")
    by reflexivity.
  assert (HkeyY : keyFunc (store Demo.reflectorX) (watch.Data Demo.deletedY) =
            inr "a/y") by reflexivity.
  split_and!;
    [done | done | done | | done | done | done | | done | done |].
  - destruct (Deleted_event Demo.Annotations Demo.reflectorX Demo.deletedX []
                "a/x" HtyX HkeyX) as (_ & _ & Hpresent).
    destruct Hpresent as (_ & _ & Hmarked & _). apply (Hmarked Hmark).
  - destruct (Deleted_event Demo.Annotations Demo.reflectorX Demo.deletedPlain
                [] "a/x" HtyP HkeyP) as (_ & _ & Hpresent).
    destruct Hpresent as (_ & _ & _ & Hunmarked). apply (Hunmarked Hplain).
  - destruct (Deleted_event Demo.Annotations Demo.reflectorX Demo.deletedY []
                "a/y" HtyY HkeyY) as (_ & _ & Habsent).
    exact Habsent.
Defined.

(** * Further properties of the cache *)

Section CacheAlgebra.

Context {Obj : Type}.
Implicit Types (c : Cache Obj) (obj item : Obj) (items : list Obj).
Implicit Types (key : string) (kf : ObjectKeyFunc Obj).

Lemma Cache_eta c : mkCache (dataMap c) (keyFunc c) = c.
Proof. by destruct c. Qed.

(** Deleting every key of a list that covers the map leaves nothing. *)
Lemma delete_all_keys (m : gmap string Obj) (keys : list string) :
  (∀ key, is_Some (m !! key) → key ∈ keys) →
  foldl (λ m key, delete key m) m keys = ∅.
Proof.
  revert m. induction keys as [|k keys IH]; intros m Hcover.
  - apply map_empty. intros key.
    destruct (m !! key) eqn:Hkey; [|done].
    by destruct (not_elem_of_nil key); apply Hcover.
  - cbn [foldl]. apply IH. intros key Hkey.
    destruct (decide (key = k)) as [->|Hne].
    + rewrite lookup_delete_eq in Hkey. by destruct Hkey.
    + rewrite lookup_delete_ne in Hkey by done.
      apply Hcover, elem_of_cons in Hkey as [?|?]; [done | done].
Qed.

Lemma Cache_Clear_empty c : Cache_Clear c = mkCache ∅ (keyFunc c).
Proof.
  unfold Cache_Clear. f_equal. apply delete_all_keys.
  intros key. by rewrite elem_of_ListKeys.
Qed.

(** X1. The loop of [Clear] removes every entry: afterwards the cache
    counts zero, lists nothing, finds no key, and [Get] reports every object
    with a key as missing. *)
Theorem Clear_removes_everything c :
  dataMap (Cache_Clear c) = ∅ ∧
  keyFunc (Cache_Clear c) = keyFunc c ∧
  Cache_Num (Cache_Clear c) = 0 ∧
  Cache_List (Cache_Clear c) = [] ∧
  Cache_ListKeys (Cache_Clear c) = [] ∧
  (∀ key, Cache_GetByKey (Cache_Clear c) key = None) ∧
  (∀ obj, Cache_Get (Cache_Clear c) obj =
          match keyFunc c obj with
          | inl err => GetErr (KeyError obj err)
          | inr _ => Missing
          end).
Proof.
  rewrite Cache_Clear_empty.
  unfold Cache_Num, Cache_List, Cache_ListKeys, Cache_GetByKey, Cache_Get.
  cbn [dataMap keyFunc]. rewrite map_to_list_empty.
  by split_and!.
Qed.

(** X2. [Num], [List] and [ListKeys] agree with the lookups: both lists
    have [Num] elements, no key is listed twice, a key is listed exactly when
    [GetByKey] finds it, and an object is listed exactly when some key holds
    it. *)
Theorem listings_agree_with_lookups c :
  length (Cache_List c) = Cache_Num c ∧
  length (Cache_ListKeys c) = Cache_Num c ∧
  NoDup (Cache_ListKeys c) ∧
  (∀ key, key ∈ Cache_ListKeys c ↔ is_Some (Cache_GetByKey c key)) ∧
  (∀ item, item ∈ Cache_List c ↔ ∃ key, Cache_GetByKey c key = Some item).
Proof.
  unfold Cache_List, Cache_ListKeys, Cache_Num, Cache_GetByKey.
  rewrite !length_fmap, length_map_to_list.
  split_and!; [done | done | apply NoDup_fst_map_to_list | |].
  - intros key. apply elem_of_ListKeys.
  - intros item. rewrite list_elem_of_fmap. split.
    + intros [[key v] [-> Hin]]. exists key. by apply elem_of_map_to_list.
    + intros [key Hkey]. exists (key, item). by rewrite elem_of_map_to_list.
Qed.

(** X3. [Update] is [Add].  For an object with a key, [Add] makes the cache
    one entry larger when the key is new and keeps its size when the key is
    taken, and it leaves every other key as it was. *)
Theorem Add_counts_and_frames c obj key :
  keyFunc c obj = inr key →
  Cache_Update c obj = Cache_Add c obj ∧
  Cache_Num (Cache_Add c obj).1 =
    match Cache_GetByKey c key with
    | Some _ => Cache_Num c
    | None => Datatypes.S (Cache_Num c)
    end ∧
  (∀ key', key' ≠ key →
     Cache_GetByKey (Cache_Add c obj).1 key' = Cache_GetByKey c key').
Proof.
  intros Hkey. unfold Cache_Update, Cache_Add, Cache_Num, Cache_GetByKey.
  rewrite Hkey. cbn. split_and!; [done | |].
  - rewrite map_size_insert. by destruct (dataMap c !! key).
  - intros key' Hne. by rewrite lookup_insert_ne.
Qed.

(** X4. [Add] of an object with a new key followed by [Delete] of the
    object gives back the cache; [Delete] of an object that the cache holds
    under its key followed by [Add] of it gives back the cache as well. *)
Theorem Add_Delete_round_trips c obj key :
  keyFunc c obj = inr key →
  (dataMap c !! key = None →
     Cache_Delete (Cache_Add c obj).1 obj = (c, None)) ∧
  (dataMap c !! key = Some obj →
     Cache_Add (Cache_Delete c obj).1 obj = (c, None)).
Proof.
  intros Hkey. unfold Cache_Add, Cache_Delete. rewrite Hkey. cbn. split.
  - intros Hnew. rewrite Hkey. cbn. rewrite lookup_insert_eq.
    by rewrite delete_insert_id, Cache_eta.
  - intros Hheld. rewrite Hheld. cbn. rewrite Hkey. unfold setEntry. cbn.
    by rewrite insert_delete_id, Cache_eta.
Qed.

(** X5. [Delete] of an object whose key is present makes the cache one
    entry smaller and leaves every other key as it was. *)
Theorem Delete_counts_and_frames c obj key :
  keyFunc c obj = inr key →
  is_Some (dataMap c !! key) →
  Datatypes.S (Cache_Num (Cache_Delete c obj).1) = Cache_Num c ∧
  (∀ key', key' ≠ key →
     Cache_GetByKey (Cache_Delete c obj).1 key' = Cache_GetByKey c key').
Proof.
  intros Hkey [old Hold]. unfold Cache_Delete, Cache_Num, Cache_GetByKey.
  rewrite Hkey, Hold. cbn. split.
  - rewrite map_size_delete, Hold. cbn.
    assert (size (dataMap c) ≠ 0); [|lia].
    intros Hzero. apply map_size_empty_inv in Hzero.
    by rewrite Hzero, lookup_empty in Hold.
  - intros key' Hne. by rewrite lookup_delete_ne.
Qed.

(** X6. [Reset] is [Clear] followed by [Replace], and [Reset] with no item
    is [Clear]. *)
Theorem Reset_is_Clear_then_Replace c items :
  Cache_Reset c items = Cache_Replace (Cache_Clear c) items ∧
  Cache_Reset c [] = (Cache_Clear c, None).
Proof. unfold Cache_Reset, Cache_Replace. by rewrite Cache_Clear_empty. Qed.

(** X7. [Replace] with no item changes nothing, [Replace] with one item is
    [Update] of this item, and [Replace] with a concatenation is [Replace]
    with its first part followed, unless that returned an error, by
    [Replace] with its second part. *)
Theorem Replace_composes c obj items rest :
  Cache_Replace c [] = (c, None) ∧
  Cache_Replace c [obj] = Cache_Update c obj ∧
  Cache_Replace c (items ++ rest) =
    match (Cache_Replace c items).2 with
    | None => Cache_Replace (Cache_Replace c items).1 rest
    | Some _ => Cache_Replace c items
    end.
Proof.
  unfold Cache_Replace, Cache_Update. split_and!; [done | |].
  - cbn. by destruct (keyFunc c obj).
  - apply insertAll_app.
Qed.

(** X8. [Replace] and [Reset] return no error exactly when the key of
    every item derives. *)
Theorem Replace_Reset_succeed_iff c items :
  ((Cache_Replace c items).2 = None ↔ Forall (derivable (keyFunc c)) items) ∧
  ((Cache_Reset c items).2 = None ↔ Forall (derivable (keyFunc c)) items).
Proof.
  assert (Hany : ∀ c0, keyFunc c0 = keyFunc c →
    (insertAll c0 items).2 = None ↔ Forall (derivable (keyFunc c)) items).
  { intros c0 Hkf. split.
    - intros Hnil. destruct (decide (Forall (λ item, hasKey (keyFunc c) item)
                                            items)) as [Hall|Hnot].
      + eapply Forall_impl; [exact Hall|]. intros item. unfold hasKey, derivable.
        destruct (keyFunc c item) as [err|key]; [done | by exists key].
      + destruct (first_key_failure (keyFunc c0) items) as
          (i & bad & err & Hi & Hbad & Hpre).
        { rewrite Hkf. intros Hall. apply Hnot.
          eapply Forall_impl; [exact Hall|]. intros item [key Hkey].
          unfold hasKey. by rewrite Hkey. }
        by rewrite (insertAll_first_failure c0 items i bad err Hi Hbad Hpre)
          in Hnil.
    - rewrite <- Hkf. intros Hall. by apply insertAll_derivable. }
  split; [by apply Hany | by apply (Hany (mkCache ∅ (keyFunc c)))].
Qed.

Lemma insertAll_twice c items :
  Forall (derivable (keyFunc c)) items →
  insertAll (insertAll c items).1 items = insertAll c items.
Proof.
  intros Hall.
  pose proof (insertAll_keyFunc c items) as Hkf.
  destruct (insertAll_derivable c items Hall) as [Hnil Hlook].
  assert (Hall' : Forall (derivable (keyFunc (insertAll c items).1)) items)
    by (by rewrite Hkf).
  destruct (insertAll_derivable _ items Hall') as [Hnil' Hlook'].
  pose proof (insertAll_keyFunc (insertAll c items).1 items) as Hkf'.
  destruct (insertAll (insertAll c items).1 items) as [c2 e2].
  destruct (insertAll c items) as [c1 e1]. cbn in *. subst e1 e2. f_equal.
  destruct c1 as [m1 kf1], c2 as [m2 kf2]. cbn in *. f_equal; [|congruence].
  apply map_eq. intros key. rewrite Hlook', Hkf, Hlook.
  by destruct (lastWithKey (keyFunc c) key items).
Qed.

(** X9. When the key of every item derives, a second [Replace] with the
    same items changes nothing. *)
Theorem Replace_idempotent c items :
  Forall (derivable (keyFunc c)) items →
  Cache_Replace (Cache_Replace c items).1 items = Cache_Replace c items.
Proof. apply insertAll_twice. Qed.

End CacheAlgebra.

Section CacheInvariant.

Context {Obj : Type}.
Implicit Types (c : Cache Obj) (obj item : Obj) (items : list Obj).

Lemma setEntry_wellKeyed c key obj :
  keyFunc c obj = inr key → wellKeyed c → wellKeyed (setEntry c key obj).
Proof.
  intros Hkey Hwell key' item. unfold setEntry. cbn [dataMap keyFunc].
  destruct (decide (key = key')) as [<-|Hne].
  - rewrite lookup_insert_eq. by intros [= <-].
  - rewrite lookup_insert_ne by done. apply Hwell.
Qed.

Lemma insertAll_wellKeyed c items :
  wellKeyed c → wellKeyed (insertAll c items).1.
Proof.
  revert c. induction items as [|item items IH]; intros c Hwell; [done|].
  cbn [insertAll]. destruct (keyFunc c item) as [err|key] eqn:Hkey; [done|].
  by apply IH, setEntry_wellKeyed.
Qed.

Lemma empty_wellKeyed (kf : ObjectKeyFunc Obj) : wellKeyed (mkCache ∅ kf).
Proof. intros key item. cbn. by rewrite lookup_empty. Qed.

(** X10. The cache keeps every value under the key of this value: a new
    cache does, [Add], [Update], [Delete] and [Replace] keep it so, also
    when they return an error, and after [Clear] and [Reset] it holds
    whatever the cache was. *)
Theorem wellKeyed_is_kept :
  (∀ kf : ObjectKeyFunc Obj, wellKeyed (NewCache kf)) ∧
  (∀ c, wellKeyed c →
     (∀ obj, wellKeyed (Cache_Add c obj).1 ∧
             wellKeyed (Cache_Update c obj).1 ∧
             wellKeyed (Cache_Delete c obj).1) ∧
     (∀ items, wellKeyed (Cache_Replace c items).1)) ∧
  (∀ c, wellKeyed (Cache_Clear c)) ∧
  (∀ c items, wellKeyed (Cache_Reset c items).1).
Proof.
  split_and!.
  - intros kf. apply empty_wellKeyed.
  - intros c Hwell. split; [|intros items; by apply insertAll_wellKeyed].
    intros obj. unfold Cache_Add, Cache_Update, Cache_Delete.
    destruct (keyFunc c obj) as [err|key] eqn:Hkey; [done|].
    split_and!; [by apply setEntry_wellKeyed | by apply setEntry_wellKeyed |].
    destruct (dataMap c !! key) as [old|] eqn:Hold; [|done].
    intros key' item. cbn.
    destruct (decide (key = key')) as [<-|Hne].
    + by rewrite lookup_delete_eq.
    + rewrite lookup_delete_ne by done. apply Hwell.
  - intros c. rewrite Cache_Clear_empty. apply empty_wellKeyed.
  - intros c items. apply insertAll_wellKeyed, empty_wellKeyed.
Qed.

(** X11. In a cache that keeps every value under its own key, each object
    that [List] returns is found by [Get], as itself. *)
Theorem listed_items_are_found c item :
  wellKeyed c →
  item ∈ Cache_List c →
  Cache_Get c item = Found item.
Proof.
  intros Hwell [[key v] [-> Hin]]%list_elem_of_fmap.
  apply elem_of_map_to_list in Hin. unfold Cache_Get. cbn.
  by rewrite (Hwell key v Hin), Hin.
Qed.

End CacheInvariant.

(** Witnesses of the further cache properties. *)

Lemma Add_counts_and_frames_witness :
  keyFunc Demo.cacheX Demo.taskY = inr "a/y" ∧
  Cache_Num (Cache_Add Demo.cacheX Demo.taskY).1 = 2 ∧
  keyFunc Demo.cacheX Demo.taskX' = inr "a/x" ∧
  Cache_Num (Cache_Add Demo.cacheX Demo.taskX').1 = 1.
Proof.
  assert (Hy : keyFunc Demo.cacheX Demo.taskY = inr "a/y") by reflexivity.
  assert (Hx : keyFunc Demo.cacheX Demo.taskX' = inr "a/x") by reflexivity.
  split_and!; [done | | done |].
  - apply (Add_counts_and_frames Demo.cacheX Demo.taskY "a/y" Hy).
  - apply (Add_counts_and_frames Demo.cacheX Demo.taskX' "a/x" Hx).
Defined.

Lemma Add_Delete_round_trips_witness :
  keyFunc Demo.cacheX Demo.taskY = inr "a/y" ∧
  dataMap Demo.cacheX !! "a/y" = None ∧
  Cache_Delete (Cache_Add Demo.cacheX Demo.taskY).1 Demo.taskY =
    (Demo.cacheX, None) ∧
  keyFunc Demo.cacheX Demo.taskX = inr "a/x" ∧
  dataMap Demo.cacheX !! "a/x" = Some Demo.taskX ∧
  Cache_Add (Cache_Delete Demo.cacheX Demo.taskX).1 Demo.taskX =
    (Demo.cacheX, None).
Proof.
  assert (Hy : keyFunc Demo.cacheX Demo.taskY = inr "a/y") by reflexivity.
  assert (Hx : keyFunc Demo.cacheX Demo.taskX = inr "a/x") by reflexivity.
  assert (Hnew : dataMap Demo.cacheX !! "a/y" = None) by reflexivity.
  assert (Hheld : dataMap Demo.cacheX !! "a/x" = Some Demo.taskX)
    by reflexivity.
  split_and!; [done | done | | done | done |].
  - apply (Add_Delete_round_trips Demo.cacheX Demo.taskY "a/y" Hy), Hnew.
  - apply (Add_Delete_round_trips Demo.cacheX Demo.taskX "a/x" Hx), Hheld.
Defined.

Lemma Delete_counts_and_frames_witness :
  keyFunc Scenario.cacheXY Demo.taskX' = inr "a/x" ∧
  is_Some (dataMap Scenario.cacheXY !! "a/x") ∧
  Datatypes.S (Cache_Num (Cache_Delete Scenario.cacheXY Demo.taskX').1) =
    Cache_Num Scenario.cacheXY ∧
  Cache_GetByKey (Cache_Delete Scenario.cacheXY Demo.taskX').1 "a/y" =
    Cache_GetByKey Scenario.cacheXY "a/y".
Proof.
  assert (Hx : keyFunc Scenario.cacheXY Demo.taskX' = inr "a/x")
    by reflexivity.
  assert (Hin : is_Some (dataMap Scenario.cacheXY !! "a/x"))
    by (exists Demo.taskX; reflexivity).
  destruct (Delete_counts_and_frames Scenario.cacheXY Demo.taskX' "a/x" Hx Hin)
    as [Hnum Hframe].
  split_and!; [done | done | exact Hnum | apply Hframe; discriminate].
Defined.

Lemma Replace_idempotent_witness :
  Forall (derivable (keyFunc Demo.cacheX)) [Demo.taskX'; Demo.taskY] ∧
  Cache_Replace (Cache_Replace Demo.cacheX [Demo.taskX'; Demo.taskY]).1
                [Demo.taskX'; Demo.taskY] =
    Cache_Replace Demo.cacheX [Demo.taskX'; Demo.taskY].
Proof.
  assert (Hall : Forall (derivable (keyFunc Demo.cacheX))
                        [Demo.taskX'; Demo.taskY]).
  { apply Demo_derivable. by repeat constructor. }
  split; [done|]. apply (Replace_idempotent Demo.cacheX _ Hall).
Defined.

Lemma Scenario_cacheXY_wellKeyed : wellKeyed Scenario.cacheXY.
Proof.
  assert (Hbuilt : Scenario.cacheXY =
            (insertAll (mkCache ∅ Demo.taskKey) [Demo.taskX; Demo.taskY]).1)
    by (vm_compute; reflexivity).
  rewrite Hbuilt. apply insertAll_wellKeyed, empty_wellKeyed.
Qed.

Lemma wellKeyed_is_kept_witness :
  wellKeyed Scenario.cacheXY ∧
  wellKeyed (Cache_Delete Scenario.cacheXY Demo.taskX').1 ∧
  wellKeyed (Cache_Replace Scenario.cacheXY [Demo.taskX'; Demo.nameless]).1.
Proof.
  destruct (@wellKeyed_is_kept Demo.Task) as (_ & Hkeep & _).
  destruct (Hkeep Scenario.cacheXY Scenario_cacheXY_wellKeyed)
    as [Hpoint Hreplace].
  split_and!; [apply Scenario_cacheXY_wellKeyed | apply Hpoint |
               apply Hreplace].
Defined.

Lemma listed_items_are_found_witness :
  wellKeyed Scenario.cacheXY ∧
  Demo.taskY ∈ Cache_List Scenario.cacheXY ∧
  Cache_Get Scenario.cacheXY Demo.taskY = Found Demo.taskY.
Proof.
  assert (Hin : Demo.taskY ∈ Cache_List Scenario.cacheXY).
  { unfold Cache_List. apply list_elem_of_fmap. exists ("a/y", Demo.taskY).
    split; [done|]. by apply elem_of_map_to_list. }
  split_and!; [apply Scenario_cacheXY_wellKeyed | done |].
  apply (listed_items_are_found Scenario.cacheXY Demo.taskY
           Scenario_cacheXY_wellKeyed Hin).
Defined.

(** * Further properties of the reflector *)

Section ReflectorAlgebra.

Import watch.

Context {Obj S L H : Type}.
Context `{!Store Obj S, !ListerWatcher Obj L, !EventInterface Obj H}.
Implicit Types (r : Reflector S L H) (obj : Obj) (event : Event Obj).

Lemma Reflector_eta r :
  mkReflector (name r) (listWatch r) (store r) (handler r) (underWatch r) = r.
Proof. by destruct r. Qed.

(** One object of a pass touches neither the backend nor the watch flag,
    and what it does to the store depends on the store alone. *)
Lemma listAllData_each_frame r obj :
  listWatch (listAllData_each r obj) = listWatch r ∧
  underWatch (listAllData_each r obj) = underWatch r.
Proof.
  unfold listAllData_each.
  destruct (Get (store r) obj) as [err|old|]; [done| |];
    (match goal with
     | |- context [notify ?r0 ?f] =>
         destruct (notify_rest r0 f) as (_ & -> & _ & ->)
     end); done.
Qed.

Lemma listAllData_each_store r1 r2 obj :
  store r1 = store r2 →
  store (listAllData_each r1 obj) = store (listAllData_each r2 obj).
Proof.
  intros Hs. unfold listAllData_each. rewrite Hs.
  destruct (Get (store r2) obj) as [err|old|]; [done| |];
    repeat (match goal with
     | |- context [notify ?r0 ?f] =>
         destruct (notify_rest r0 f) as (_ & _ & -> & _)
     end); done.
Qed.

Lemma listAllData_each_handler r1 r2 obj :
  store r1 = store r2 → handler r1 = handler r2 →
  handler (listAllData_each r1 obj) = handler (listAllData_each r2 obj).
Proof.
  intros Hs Hh. unfold listAllData_each. rewrite Hs.
  destruct (Get (store r2) obj) as [err|old|]; [done| |];
    rewrite !notify_handler; cbn; by rewrite Hh.
Qed.

Section WatchLoop.

Context (annotations : Obj → option (gmap string string)).

Lemma processDeletion_frame r event :
  listWatch (processDeletion annotations r event) = listWatch r ∧
  underWatch (processDeletion annotations r event) = underWatch r.
Proof.
  unfold processDeletion.
  destruct (Get (store r) (Data event)) as [err|old|]; [done| |done].
  destruct (fromZookeeper annotations (Data event));
    (match goal with
     | |- context [notify ?r0 ?f] =>
         destruct (notify_rest r0 f) as (_ & -> & _ & ->)
     end); done.
Qed.

Lemma processDeletion_store r1 r2 event :
  store r1 = store r2 →
  store (processDeletion annotations r1 event) =
  store (processDeletion annotations r2 event).
Proof.
  intros Hs. unfold processDeletion. rewrite Hs.
  destruct (Get (store r2) (Data event)) as [err|old|]; [done| |done].
  destruct (fromZookeeper annotations (Data event));
    repeat (match goal with
     | |- context [notify ?r0 ?f] =>
         destruct (notify_rest r0 f) as (_ & _ & -> & _)
     end); done.
Qed.

Lemma processDeletion_handler r1 r2 event :
  store r1 = store r2 → handler r1 = handler r2 →
  handler (processDeletion annotations r1 event) =
  handler (processDeletion annotations r2 event).
Proof.
  intros Hs Hh. unfold processDeletion. rewrite Hs.
  destruct (Get (store r2) (Data event)) as [err|old|]; [done| |done].
  destruct (fromZookeeper annotations (Data event));
    rewrite !notify_handler; cbn; by rewrite Hh.
Qed.

Lemma handleWatch_each_frame r event :
  listWatch (handleWatch_each annotations r event) = listWatch r ∧
  underWatch (handleWatch_each annotations r event) = underWatch r.
Proof.
  unfold handleWatch_each.
  destruct (Type_ event); try done;
    try apply (listAllData_each_frame r (Data event));
    apply processDeletion_frame.
Qed.

Lemma handleWatch_each_store r1 r2 event :
  store r1 = store r2 →
  store (handleWatch_each annotations r1 event) =
  store (handleWatch_each annotations r2 event).
Proof.
  intros Hs. unfold handleWatch_each.
  destruct (Type_ event); try done;
    try apply (listAllData_each_store r1 r2 (Data event) Hs);
    by apply processDeletion_store.
Qed.

Lemma handleWatch_each_handler r1 r2 event :
  store r1 = store r2 → handler r1 = handler r2 →
  handler (handleWatch_each annotations r1 event) =
  handler (handleWatch_each annotations r2 event).
Proof.
  intros Hs Hh. unfold handleWatch_each.
  destruct (Type_ event); try done;
    try apply (listAllData_each_handler r1 r2 (Data event) Hs Hh);
    by apply processDeletion_handler.
Qed.

Lemma watch_loop_frame r channel :
  listWatch (foldl (handleWatch_each annotations) r channel) = listWatch r ∧
  underWatch (foldl (handleWatch_each annotations) r channel) = underWatch r.
Proof.
  revert r. induction channel as [|event channel IH]; intros r; [done|].
  cbn [foldl].
  destruct (IH (handleWatch_each annotations r event)) as [-> ->].
  apply handleWatch_each_frame.
Qed.

Lemma watch_loop_sim r1 r2 channel :
  store r1 = store r2 → handler r1 = handler r2 →
  store (foldl (handleWatch_each annotations) r1 channel) =
    store (foldl (handleWatch_each annotations) r2 channel) ∧
  handler (foldl (handleWatch_each annotations) r1 channel) =
    handler (foldl (handleWatch_each annotations) r2 channel).
Proof.
  revert r1 r2. induction channel as [|event channel IH]; intros r1 r2 Hs Hh;
    [done|].
  cbn [foldl]. apply IH;
    [by apply handleWatch_each_store | by apply handleWatch_each_handler].
Qed.

(** X12. [handleWatch] returns with the watch flag as it found it.  When
    the flag is set it does nothing at all.  When the flag is clear and
    [Watch] fails, only the backend has moved; when [Watch] succeeds, the
    store and the handler end as the loop over the delivered events leaves
    them, and the backend is in the state [Watch] left it in. *)
Theorem handleWatch_guard_and_flag r :
  underWatch (handleWatch annotations r) = underWatch r ∧
  (underWatch r = true → handleWatch annotations r = r) ∧
  (∀ err lw,
     underWatch r = false → Watch (listWatch r) = (inl err, lw) →
     handleWatch annotations r = withListWatch r lw) ∧
  (∀ channel lw,
     underWatch r = false → Watch (listWatch r) = (inr channel, lw) →
     listWatch (handleWatch annotations r) = lw ∧
     store (handleWatch annotations r) =
       store (foldl (handleWatch_each annotations) r channel) ∧
     handler (handleWatch annotations r) =
       handler (foldl (handleWatch_each annotations) r channel)).
Proof.
  split_and!.
  - unfold handleWatch. destruct (underWatch r) eqn:Hflag; [done|].
    cbn. by destruct (Watch (listWatch r)) as [[err|channel] lw].
  - intros Hflag. unfold handleWatch. by rewrite Hflag.
  - intros err lw Hflag Hwatch. unfold handleWatch. rewrite Hflag. cbn.
    rewrite Hwatch. unfold withUnderWatch, withListWatch. cbn.
    by rewrite <- Hflag.
  - intros channel lw Hflag Hwatch. unfold handleWatch. rewrite Hflag. cbn.
    rewrite Hwatch. cbn.
    split_and!; [by rewrite (proj1 (watch_loop_frame _ channel)) | |];
      by apply watch_loop_sim.
Qed.

(** X13. Error events change nothing: the watch loop ends in the same
    state as on the channel without its Error events. *)
Theorem watch_loop_ignores_errors r channel :
  foldl (handleWatch_each annotations) r channel =
  foldl (handleWatch_each annotations) r (withoutErrors channel).
Proof.
  revert r. induction channel as [|event channel IH]; intros r; [done|].
  unfold withoutErrors in *. rewrite filter_cons. cbn [foldl].
  destruct (decide (isError event = false)) as [Hno|Hyes].
  - cbn [foldl]. apply IH.
  - rewrite <- IH. f_equal. unfold isError in Hyes. unfold handleWatch_each.
    by destruct (Type_ event).
Qed.

End WatchLoop.

End ReflectorAlgebra.

(** * Further properties of the reflector on a [Cache] *)

Section ReflectorOnCacheAlgebra.

Import watch.

Context {Obj L H : Type}.
Context `{!ListerWatcher Obj L, !EventInterface Obj H}.
Implicit Types (r : Reflector (Cache Obj) L H) (obj : Obj) (event : Event Obj).
Implicit Types (c : Cache Obj) (key : string) (objs : list Obj).

(** One object of a pass, by the outcome of the key derivation. *)
Lemma listAllData_each_keyed r obj key :
  keyFunc (store r) obj = inr key →
  store (listAllData_each r obj) = setEntry (store r) key obj ∧
  handler (listAllData_each r obj) =
    match dataMap (store r) !! key with
    | Some old => OnUpdate old obj
    | None => OnAdd obj
    end <$> handler r.
Proof.
  intros Hkey. unfold listAllData_each. rewrite (Get_Cache _ _ _ Hkey).
  destruct (dataMap (store r) !! key) as [old|];
    rewrite notify_handler;
    (match goal with
     | |- context [notify ?r0 ?f] =>
         destruct (notify_rest r0 f) as (_ & _ & -> & _)
     end); cbn; unfold Cache_Update, Cache_Add; by rewrite Hkey.
Qed.

Lemma listAllData_each_unkeyed r obj err :
  keyFunc (store r) obj = inl err → listAllData_each r obj = r.
Proof.
  intros Hkey. unfold listAllData_each. cbn. unfold Cache_Get.
  by rewrite Hkey.
Qed.

Lemma pass_stores_like_insertAll r objs :
  insertAll (store r) (filter (λ obj, hasKey (keyFunc (store r)) obj) objs) =
  (store (foldl listAllData_each r objs), None).
Proof.
  revert r. induction objs as [|obj objs IH]; intros r; [done|].
  rewrite filter_cons. cbn [foldl].
  destruct (decide (hasKey (keyFunc (store r)) obj)) as [Hhas|Hhas];
    unfold hasKey in Hhas;
    destruct (keyFunc (store r) obj) as [err|key] eqn:Hkey; try done.
  - rewrite (insertAll_cons_ok _ _ _ _ Hkey).
    destruct (listAllData_each_keyed r obj key Hkey) as [Hstore _].
    pose proof (IH (listAllData_each r obj)) as Hrest.
    rewrite Hstore in Hrest. exact Hrest.
  - rewrite (listAllData_each_unkeyed r obj err Hkey). apply IH.
Qed.

(** X16. What a successful pass does to the cache is what [Replace] does
    with the listed objects that have a key, and this [Replace] returns no
    error. *)
Theorem listAllData_stores_like_Replace r objs lw :
  List (listWatch r) = (inr objs, lw) →
  Cache_Replace (store r)
    (filter (λ obj, hasKey (keyFunc (store r)) obj) objs) =
  (store (listAllData r), None).
Proof.
  intros Hlist. rewrite (listAllData_ok r objs lw Hlist).
  apply (pass_stores_like_insertAll (withListWatch r lw)).
Qed.

Lemma pass_of_new_objects r objs :
  Forall (derivable (keyFunc (store r))) objs →
  NoDup (keysOf (keyFunc (store r)) objs) →
  (∀ key, key ∈ keysOf (keyFunc (store r)) objs →
          dataMap (store r) !! key = None) →
  handler (foldl listAllData_each r objs) =
    (λ h, foldl (λ h obj, OnAdd obj h) h objs) <$> handler r ∧
  Cache_Num (store (foldl listAllData_each r objs)) =
    Cache_Num (store r) + length objs.
Proof.
  revert r. induction objs as [|obj objs IH]; intros r Hall Hnodup Hnew.
  - cbn. split; [by destruct (handler r) | lia].
  - apply Forall_cons in Hall as [[key Hkey] Hall].
    rewrite keysOf_cons, Hkey in Hnodup, Hnew.
    apply NoDup_cons in Hnodup as [Hfirst Hnodup].
    destruct (listAllData_each_keyed r obj key Hkey) as [Hstore Hhandler].
    rewrite (Hnew key) in Hhandler by apply list_elem_of_here.
    cbn [foldl length].
    destruct (IH (listAllData_each r obj)) as [-> ->].
    + by rewrite Hstore.
    + by rewrite Hstore.
    + rewrite Hstore. intros key' Hin. cbn.
      rewrite lookup_insert_ne by (by intros ->).
      by apply Hnew, list_elem_of_further.
    + rewrite Hhandler, Hstore. split; [by destruct (handler r)|].
      unfold Cache_Num. cbn.
      rewrite map_size_insert_None by (apply Hnew, list_elem_of_here). lia.
Qed.

(** X17. A successful pass that lists objects with pairwise different keys,
    none of which is in the cache, calls [OnAdd] for each object, in the
    order of the list, and nothing else; the cache grows by the number of
    listed objects. *)
Theorem listAllData_of_new_objects r objs lw :
  List (listWatch r) = (inr objs, lw) →
  Forall (derivable (keyFunc (store r))) objs →
  NoDup (keysOf (keyFunc (store r)) objs) →
  (∀ key, key ∈ keysOf (keyFunc (store r)) objs →
          dataMap (store r) !! key = None) →
  handler (listAllData r) =
    (λ h, foldl (λ h obj, OnAdd obj h) h objs) <$> handler r ∧
  Cache_Num (store (listAllData r)) = Cache_Num (store r) + length objs.
Proof.
  intros Hlist Hall Hnodup Hnew. rewrite (listAllData_ok r objs lw Hlist).
  apply (pass_of_new_objects (withListWatch r lw) objs Hall Hnodup Hnew).
Qed.

Lemma pass_of_stored_objects r objs :
  Forall (λ obj, Cache_Get (store r) obj = Found obj) objs →
  store (foldl listAllData_each r objs) = store r ∧
  handler (foldl listAllData_each r objs) =
    (λ h, foldl (λ h obj, OnUpdate obj obj h) h objs) <$> handler r.
Proof.
  revert r. induction objs as [|obj objs IH]; intros r Hall.
  - cbn. by destruct (handler r).
  - apply Forall_cons in Hall as [Hget Hall]. cbn [foldl].
    unfold Cache_Get in Hget.
    destruct (keyFunc (store r) obj) as [err|key] eqn:Hkey; [done|].
    destruct (dataMap (store r) !! key) as [old|] eqn:Hold; [|done].
    injection Hget as ->.
    destruct (listAllData_each_keyed r obj key Hkey) as [Hstore Hhandler].
    rewrite Hold in Hhandler.
    assert (Hsame : store (listAllData_each r obj) = store r).
    { rewrite Hstore. unfold setEntry. rewrite insert_id by done.
      by destruct (store r). }
    destruct (IH (listAllData_each r obj)) as [-> ->];
      [by rewrite Hsame|].
    rewrite Hhandler. split; [done | by destruct (handler r)].
Qed.

(** X18. A successful pass that lists only objects which the cache already
    holds, each under its key, leaves the cache as it is and calls
    [OnUpdate] with the object as old and as new value, once for each
    listed object and in the order of the list. *)
Theorem listAllData_of_stored_objects r objs lw :
  List (listWatch r) = (inr objs, lw) →
  Forall (λ obj, Cache_Get (store r) obj = Found obj) objs →
  store (listAllData r) = store r ∧
  handler (listAllData r) =
    (λ h, foldl (λ h obj, OnUpdate obj obj h) h objs) <$> handler r.
Proof.
  intros Hlist Hall. rewrite (listAllData_ok r objs lw Hlist).
  apply (pass_of_stored_objects (withListWatch r lw) objs Hall).
Qed.

(** X19. A watch event whose payload has the key [key] leaves every other
    key of the cache as it was and keeps the keying function; after an
    Added, Updated or Synced event, [Get] of the payload finds the
    payload. *)
Theorem watch_event_touches_one_key
    (annotations : Obj → option (gmap string string)) r event key :
  keyFunc (store r) (Data event) = inr key →
  keyFunc (store (handleWatch_each annotations r event)) = keyFunc (store r) ∧
  (∀ key', key' ≠ key →
     dataMap (store (handleWatch_each annotations r event)) !! key' =
     dataMap (store r) !! key') ∧
  (Type_ event ≠ EventDeleted → Type_ event ≠ EventErr →
     Get (store (handleWatch_each annotations r event)) (Data event) =
       Found (Data event)).
Proof.
  intros Hkey.
  destruct (listAllData_each_keyed r (Data event) key Hkey) as [Hupsert _].
  assert (Hdel : store (processDeletion annotations r event) = store r ∨
                 store (processDeletion annotations r event) =
                 mkCache (delete key (dataMap (store r))) (keyFunc (store r))).
  { unfold processDeletion. rewrite (Get_Cache _ _ _ Hkey).
    destruct (dataMap (store r) !! key) as [old|] eqn:Hold; [|by left].
    right. destruct (fromZookeeper annotations (Data event));
      (match goal with
       | |- context [notify ?r0 ?f] =>
           destruct (notify_rest r0 f) as (_ & _ & -> & _)
       end); cbn; unfold Cache_Delete; by rewrite Hkey, Hold. }
  unfold handleWatch_each.
  destruct (Type_ event); rewrite ?processAddUpdate_listAllData_each.
  1-3: rewrite Hupsert; split_and!; [done | |];
    [intros key' Hne; cbn; by rewrite lookup_insert_ne |
     intros _ _; cbn; unfold Cache_Get; cbn; by rewrite Hkey, lookup_insert_eq].
  - split_and!; [by destruct Hdel as [->| ->] | | done].
    intros key' Hne. destruct Hdel as [->| ->]; [done|].
    cbn. by rewrite lookup_delete_ne.
  - by split_and!.
Qed.

Lemma pass_frame r objs :
  listWatch (foldl listAllData_each r objs) = listWatch r.
Proof.
  revert r. induction objs as [|obj objs IH]; intros r; [done|].
  cbn [foldl]. rewrite IH. apply listAllData_each_frame.
Qed.

Lemma keyed_are_derivable (kf : ObjectKeyFunc Obj) objs :
  Forall (derivable kf) (filter (λ obj, hasKey kf obj) objs).
Proof.
  apply Forall_forall. intros obj [Hhas _]%list_elem_of_filter.
  unfold hasKey in Hhas. unfold derivable.
  destruct (kf obj) as [err|key]; [done | by exists key].
Qed.

(** X21. Resynchronization is idempotent on the cache: when the backend
    lists the same objects twice in a row, the second pass leaves the cache
    as the first pass left it. *)
Theorem listAllData_twice r objs lw lw' :
  List (listWatch r) = (inr objs, lw) →
  List lw = (inr objs, lw') →
  store (listAllData (listAllData r)) = store (listAllData r).
Proof.
  intros Hlist Hagain.
  assert (Hlw : listWatch (listAllData r) = lw).
  { rewrite (listAllData_ok r objs lw Hlist). by rewrite pass_frame. }
  rewrite <- Hlw in Hagain.
  pose proof (listAllData_ok (listAllData r) objs lw' Hagain) as Hsecond.
  pose proof (pass_stores_like_insertAll (withListWatch r lw) objs) as Hone.
  rewrite <- (listAllData_ok r objs lw Hlist) in Hone.
  pose proof (pass_stores_like_insertAll
                (withListWatch (listAllData r) lw') objs) as Htwo.
  rewrite <- Hsecond in Htwo. cbn [withListWatch store] in Hone, Htwo.
  assert (Hkf : keyFunc (store (listAllData r)) = keyFunc (store r)).
  { replace (store (listAllData r)) with
      (insertAll (store r)
         (filter (λ obj, hasKey (keyFunc (store r)) obj) objs)).1
      by (by rewrite Hone).
    apply insertAll_keyFunc. }
  rewrite Hkf in Htwo.
  replace (store (listAllData r)) with
    (insertAll (store r)
       (filter (λ obj, hasKey (keyFunc (store r)) obj) objs)).1 in Htwo at 1
    by (by rewrite Hone).
  rewrite insertAll_twice in Htwo by apply keyed_are_derivable.
  rewrite Hone in Htwo. by injection Htwo.
Qed.

End ReflectorOnCacheAlgebra.

(** * The reflector with an [EventHandler] *)

Section ReflectorWithEventHandler.

Import watch.

Context {Obj S L W : Type}.
Context `{!Store Obj S, !ListerWatcher Obj L}.
Context (annotations : Obj → option (gmap string string)).
Implicit Types (r : Reflector S L (EventHandler Obj W * W)).
Implicit Types (eh : EventHandler Obj W) (w : W).

Lemma unset_each r obj eh w :
  AddFn eh = None → UpdateFn eh = None →
  handler r = Some (eh, w) →
  handler (listAllData_each r obj) = Some (eh, w).
Proof.
  intros HA HU Hh. unfold listAllData_each.
  destruct (Get (store r) obj) as [err|old|]; [done| |];
    rewrite notify_handler; cbn; rewrite Hh; cbn;
    unfold EventHandler_OnUpdate, EventHandler_OnAdd; cbn;
    by rewrite ?HA, ?HU.
Qed.

Lemma unset_deletion r event eh w :
  DeleteFn eh = None →
  handler r = Some (eh, w) →
  handler (processDeletion annotations r event) = Some (eh, w).
Proof.
  intros HD Hh. unfold processDeletion.
  destruct (Get (store r) (Data event)) as [err|old|]; [done| |done].
  destruct (fromZookeeper annotations (Data event));
    rewrite notify_handler; cbn; rewrite Hh; cbn;
    unfold EventHandler_OnDelete; cbn; by rewrite HD.
Qed.

(** X20. With an [EventHandler] of which no function is set, a pass and
    the watch loop on any channel leave the handler and its world exactly
    as they were. *)
Theorem unset_callbacks_do_nothing r eh w channel :
  handler r = Some (eh, w) →
  AddFn eh = None → UpdateFn eh = None → DeleteFn eh = None →
  handler (listAllData r) = Some (eh, w) ∧
  handler (foldl (handleWatch_each annotations) r channel) = Some (eh, w).
Proof.
  intros Hh HA HU HD. split.
  - unfold listAllData.
    destruct (List (listWatch r)) as [[err|objs] lw]; [done|].
    assert (Hloop : ∀ r0 : Reflector S L (EventHandler Obj W * W),
      handler r0 = Some (eh, w) →
      handler (foldl listAllData_each r0 objs) = Some (eh, w)).
    { induction objs as [|obj objs IH]; intros r0 H0; [done|].
      cbn [foldl]. by apply IH, unset_each. }
    by apply Hloop.
  - revert r Hh. induction channel as [|event channel IH]; intros r Hh;
      [done|].
    cbn [foldl]. apply IH. unfold handleWatch_each.
    destruct (Type_ event); try done;
      try (by apply (unset_each r (Data event))).
    by apply unset_deletion.
Qed.

End ReflectorWithEventHandler.

(** Witnesses of the further reflector properties. *)

Lemma handleWatch_guard_and_flag_witness :
  underWatch Scenario.watching = true ∧
  handleWatch Demo.Annotations Scenario.watching = Scenario.watching ∧
  underWatch Scenario.unreachable = false ∧
  Watch (listWatch Scenario.unreachable) =
    (inl "backend unreachable", Demo.mkBackend [] []) ∧
  handleWatch Demo.Annotations Scenario.unreachable =
    withListWatch Scenario.unreachable (Demo.mkBackend [] []) ∧
  underWatch Scenario.fresh = false ∧
  Watch (listWatch Scenario.fresh) =
    (inr [watch.mkEvent watch.EventAdded Demo.taskY;
          watch.mkEvent watch.EventErr Demo.nameless;
          watch.mkEvent watch.EventDeleted Demo.taskY],
     Demo.mkBackend [inr [Demo.taskY; Scenario.taskZ]] []) ∧
  handler (handleWatch Demo.Annotations Scenario.fresh) =
    handler (foldl (handleWatch_each Demo.Annotations) Scenario.fresh
               [watch.mkEvent watch.EventAdded Demo.taskY;
                watch.mkEvent watch.EventErr Demo.nameless;
                watch.mkEvent watch.EventDeleted Demo.taskY]).
Proof.
  assert (Hon : underWatch Scenario.watching = true) by reflexivity.
  assert (Hoff : underWatch Scenario.unreachable = false) by reflexivity.
  assert (Hoff' : underWatch Scenario.fresh = false) by reflexivity.
  assert (Herr : Watch (listWatch Scenario.unreachable) =
            (inl "backend unreachable", Demo.mkBackend [] []))
    by reflexivity.
  assert (Hok : Watch (listWatch Scenario.fresh) =
            (inr [watch.mkEvent watch.EventAdded Demo.taskY;
                  watch.mkEvent watch.EventErr Demo.nameless;
                  watch.mkEvent watch.EventDeleted Demo.taskY],
             Demo.mkBackend [inr [Demo.taskY; Scenario.taskZ]] []))
    by reflexivity.
  split_and!; [done | | done | done | | done | done |].
  - destruct (handleWatch_guard_and_flag Demo.Annotations Scenario.watching)
      as (_ & Hguard & _). exact (Hguard Hon).
  - destruct (handleWatch_guard_and_flag Demo.Annotations
                Scenario.unreachable) as (_ & _ & Hfail & _).
    exact (Hfail _ _ Hoff Herr).
  - destruct (handleWatch_guard_and_flag Demo.Annotations Scenario.fresh)
      as (_ & _ & _ & Hrun).
    destruct (Hrun _ _ Hoff' Hok) as (_ & _ & Hcalls). exact Hcalls.
Defined.

Lemma Scenario_fresh_list :
  List (listWatch Scenario.fresh) =
    (inr [Demo.taskY; Scenario.taskZ],
     Demo.mkBackend []
       [inr [watch.mkEvent watch.EventAdded Demo.taskY;
             watch.mkEvent watch.EventErr Demo.nameless;
             watch.mkEvent watch.EventDeleted Demo.taskY]]).
Proof. reflexivity. Qed.

Lemma listAllData_stores_like_Replace_witness :
  List (listWatch Demo.reflectorL) =
    (inr [Demo.taskX'; Demo.nameless; Demo.taskY], Demo.mkBackend [] []) ∧
  Cache_Replace (store Demo.reflectorL)
    (filter (λ obj, hasKey (keyFunc (store Demo.reflectorL)) obj)
            [Demo.taskX'; Demo.nameless; Demo.taskY]) =
  (store (listAllData Demo.reflectorL), None).
Proof.
  assert (Hlist : List (listWatch Demo.reflectorL) =
            (inr [Demo.taskX'; Demo.nameless; Demo.taskY],
             Demo.mkBackend [] [])) by reflexivity.
  split; [done|].
  apply (listAllData_stores_like_Replace Demo.reflectorL _ _ Hlist).
Defined.

Lemma listAllData_of_new_objects_witness :
  Forall (derivable (keyFunc (store Scenario.fresh)))
         [Demo.taskY; Scenario.taskZ] ∧
  NoDup (keysOf (keyFunc (store Scenario.fresh))
                [Demo.taskY; Scenario.taskZ]) ∧
  (∀ key, key ∈ keysOf (keyFunc (store Scenario.fresh))
                       [Demo.taskY; Scenario.taskZ] →
          dataMap (store Scenario.fresh) !! key = None) ∧
  handler (listAllData Scenario.fresh) =
    Some [GotAdd Demo.taskY; GotAdd Scenario.taskZ] ∧
  Cache_Num (store (listAllData Scenario.fresh)) = 3.
Proof.
  assert (Hall : Forall (derivable (keyFunc (store Scenario.fresh)))
                        [Demo.taskY; Scenario.taskZ]).
  { apply Demo_derivable. by repeat constructor. }
  assert (Hnodup : NoDup (keysOf (keyFunc (store Scenario.fresh))
                                 [Demo.taskY; Scenario.taskZ])).
  { change (NoDup ["a/y"; "b/z"]). apply NoDup_cons.
    split; [|apply NoDup_singleton].
    intros Hin. apply elem_of_cons in Hin as [Hin|Hin]; [discriminate|].
    by apply elem_of_nil in Hin. }
  assert (Hnew : ∀ key, key ∈ keysOf (keyFunc (store Scenario.fresh))
                                     [Demo.taskY; Scenario.taskZ] →
                        dataMap (store Scenario.fresh) !! key = None).
  { change (∀ key, key ∈ ["a/y"; "b/z"] →
                   dataMap Demo.cacheX !! key = None).
    intros key Hin.
    repeat (apply elem_of_cons in Hin as [->|Hin]; [reflexivity|]).
    by apply elem_of_nil in Hin. }
  destruct (listAllData_of_new_objects Scenario.fresh _ _ Scenario_fresh_list
              Hall Hnodup Hnew) as [Hcalls Hnum].
  split_and!; [done | done | done | exact Hcalls | exact Hnum].
Defined.

Lemma listAllData_of_stored_objects_witness :
  Forall (λ obj, Cache_Get (store Scenario.synced) obj = Found obj)
         [Demo.taskY; Scenario.taskZ] ∧
  store (listAllData Scenario.synced) = store Scenario.synced ∧
  handler (listAllData Scenario.synced) =
    Some [GotUpdate Demo.taskY Demo.taskY;
          GotUpdate Scenario.taskZ Scenario.taskZ].
Proof.
  assert (Hall : Forall (λ obj,
                    Cache_Get (store Scenario.synced) obj = Found obj)
                        [Demo.taskY; Scenario.taskZ])
    by (repeat constructor).
  assert (Hlist : List (listWatch Scenario.synced) =
            (inr [Demo.taskY; Scenario.taskZ],
             Demo.mkBackend []
               [inr [watch.mkEvent watch.EventAdded Demo.taskY;
                     watch.mkEvent watch.EventErr Demo.nameless;
                     watch.mkEvent watch.EventDeleted Demo.taskY]]))
    by reflexivity.
  destruct (listAllData_of_stored_objects Scenario.synced _ _ Hlist Hall)
    as [Hstore Hcalls].
  split_and!; [done | exact Hstore | exact Hcalls].
Defined.

Lemma watch_event_touches_one_key_witness :
  keyFunc (store Demo.reflectorX) (watch.Data Demo.updatedX) = inr "a/x" ∧
  watch.Type_ Demo.updatedX ≠ watch.EventDeleted ∧
  watch.Type_ Demo.updatedX ≠ watch.EventErr ∧
  Get (store (handleWatch_each Demo.Annotations Demo.reflectorX
                Demo.updatedX)) (watch.Data Demo.updatedX) =
    Found (watch.Data Demo.updatedX) ∧
  dataMap (store (handleWatch_each Demo.Annotations Demo.reflectorX
                    Demo.updatedX)) !! "a/y" =
    dataMap (store Demo.reflectorX) !! "a/y".
Proof.
  assert (Hkey : keyFunc (store Demo.reflectorX) (watch.Data Demo.updatedX) =
            inr "a/x") by reflexivity.
  assert (Hnd : watch.Type_ Demo.updatedX ≠ watch.EventDeleted)
    by discriminate.
  assert (Hne : watch.Type_ Demo.updatedX ≠ watch.EventErr) by discriminate.
  destruct (watch_event_touches_one_key Demo.Annotations Demo.reflectorX
              Demo.updatedX "a/x" Hkey) as (_ & Hframe & Hget).
  split_and!; [done | done | done | exact (Hget Hnd Hne) |].
  apply Hframe. discriminate.
Defined.

Lemma unset_callbacks_do_nothing_witness :
  handler Scenario.muted = Some Scenario.silent ∧
  handler (listAllData Scenario.muted) = Some Scenario.silent ∧
  handler (foldl (handleWatch_each Demo.Annotations) Scenario.muted
             [Demo.updatedX; Demo.deletedX]) = Some Scenario.silent.
Proof.
  assert (Hh : handler Scenario.muted =
               Some (mkEventHandler None None None, 0)) by reflexivity.
  split; [done|].
  apply (unset_callbacks_do_nothing Demo.Annotations Scenario.muted
           (mkEventHandler None None None) 0 [Demo.updatedX; Demo.deletedX]
           Hh eq_refl eq_refl eq_refl).
Defined.

Lemma listAllData_twice_witness :
  List (listWatch Scenario.again) =
    (inr [Demo.taskX'; Demo.nameless; Demo.taskY],
     Demo.mkBackend [inr [Demo.taskX'; Demo.nameless; Demo.taskY]] []) ∧
  List (Demo.mkBackend [inr [Demo.taskX'; Demo.nameless; Demo.taskY]] []) =
    (inr [Demo.taskX'; Demo.nameless; Demo.taskY], Demo.mkBackend [] []) ∧
  store (listAllData (listAllData Scenario.again)) =
    store (listAllData Scenario.again).
Proof.
  assert (Hone : List (listWatch Scenario.again) =
    (inr [Demo.taskX'; Demo.nameless; Demo.taskY],
     Demo.mkBackend [inr [Demo.taskX'; Demo.nameless; Demo.taskY]] []))
    by reflexivity.
  assert (Htwo :
    List (Demo.mkBackend [inr [Demo.taskX'; Demo.nameless; Demo.taskY]] []) =
    (inr [Demo.taskX'; Demo.nameless; Demo.taskY], Demo.mkBackend [] []))
    by reflexivity.
  split_and!; [done | done |].
  apply (listAllData_twice Scenario.again _ _ _ Hone Htwo).
Defined.
